(** * spalloc: the protocol client and the job life cycle

    A shallow embedding of [spalloc/protocol_client.py] and of the waiting
    and tear-down methods of [spalloc/job.py].

    The Python objects are modelled by explicit state passing.  Everything
    the operating system or the server decides (the result of [connect],
    [send] and [recv] on a socket, the readings of [time.time()]) is an
    oracle carried in the state: a script that the calls consume in program
    order.  Exceptions are values of [exn]; a blocking call that never comes
    back is the outcome [Blocked]; loops whose length the environment
    decides take a fuel argument. *)

From Stdlib Require Import ZArith QArith Qminmax Qround Lqa String Ascii
  Strings.Byte List Lia Bool.
From stdpp Require Import gmap.
Import ListNotations.

Close Scope Q_scope.
Local Open Scope nat_scope.
Set Warnings "-register-all".

(** ** Python values and exceptions *)

(** What [json.loads] can return. *)
Inductive json : Type :=
| JNull
| JBool (b : bool)
| JInt (n : Z)
| JFloat (q : Q)
| JStr (s : string)
| JArr (l : list json)
| JObj (kvs : list (string * json)).

(** The exception classes the modelled code raises or lets through.
    [OSError] stands for [IOError]/[OSError] and their socket subclasses,
    which the handlers of the source always catch together. *)
Inductive exn : Type :=
| ProtocolTimeoutError
| OSError
| ValueError
| TypeError
| KeyError
| AttributeError
| RuntimeError
| JobDestroyedError (reason : json)
| StateChangeTimeoutError.

Inductive outcome (A : Type) : Type :=
| Ret (a : A)
| Raise (e : exn)
| Blocked
| OutOfFuel.
Arguments Ret {A} a.
Arguments Raise {A} e.
Arguments Blocked {A}.
Arguments OutOfFuel {A}.

(** Re-typing an outcome that is known not to be a normal return. *)
Definition reraise {A B : Type} (o : outcome A) : outcome B :=
  match o with
  | Ret _ => OutOfFuel
  | Raise e => Raise e
  | Blocked => Blocked
  | OutOfFuel => OutOfFuel
  end.

Definition is_oserror (e : exn) : bool :=
  match e with OSError => true | _ => false end.

Definition is_timeout (e : exn) : bool :=
  match e with ProtocolTimeoutError => true | _ => false end.

(** [dict.get]-style lookup in a decoded JSON object. *)
Fixpoint assoc (k : string) (kvs : list (string * json)) : option json :=
  match kvs with
  | [] => None
  | (k', v) :: rest => if String.eqb k' k then Some v else assoc k rest
  end.

Definition is_JStr (k : string) (x : json) : bool :=
  match x with JStr s => String.eqb s k | _ => false end.

(** [k in obj] for a string [k]: key membership in a dict, element
    membership in a list, substring test in a str, [TypeError] otherwise. *)
Definition py_in (k : string) (obj : json) : outcome bool :=
  match obj with
  | JObj kvs => Ret (match assoc k kvs with Some _ => true | None => false end)
  | JArr l => Ret (existsb (is_JStr k) l)
  | JStr s => Ret (match String.index 0 k s with Some _ => true | None => false end)
  | _ => Raise TypeError
  end.

(** [obj[k]] for a string [k]. *)
Definition py_getitem (k : string) (obj : json) : outcome json :=
  match obj with
  | JObj kvs => match assoc k kvs with Some v => Ret v | None => Raise KeyError end
  | _ => Raise TypeError
  end.

(** A JSON object carrying the key ["return"] is a response. *)
Definition has_return (obj : json) : bool :=
  match obj with
  | JObj kvs => match assoc "return" kvs with Some _ => true | None => false end
  | _ => false
  end.

Definition is_object (obj : json) : bool :=
  match obj with JObj _ => true | _ => false end.

(** ** Time *)

(** [time.time()] is an oracle: the [n]-th call reads [readings n]. *)
Record Clock : Type := mkClock { readings : nat -> Q; ticks : nat }.

Definition time_time (k : Clock) : Q * Clock :=
  (readings k (ticks k), mkClock (readings k) (S (ticks k))).

Definition Qltb (x y : Q) : bool := negb (Qle_bool y x).

(** [finish_time is None or finish_time > time.time()]: the clock is read
    only when there is a deadline. *)
Definition before_deadline (finish_time : option Q) (k : Clock) : bool * Clock :=
  match finish_time with
  | None => (true, k)
  | Some f => let '(now, k1) := time_time k in (Qltb now f, k1)
  end.

(** [time.time() + timeout if timeout is not None else None] *)
Definition deadline_of (timeout : option Q) (k : Clock) : option Q * Clock :=
  match timeout with
  | None => (None, k)
  | Some t => let '(now, k1) := time_time k in (Some (now + t)%Q, k1)
  end.

(** ** The connection manager *)

(** [current_thread()] and socket objects are identified by numbers. *)
Abbreviation thread := nat (only parsing).
Abbreviation sock := nat (only parsing).
Abbreviation bytes := (list byte) (only parsing).

(** The attributes [buffer] and [sock] of the thread-local object; the
    source always sets the two together. *)
Record Local : Type := mkLocal { l_buffer : bytes; l_sock : option sock }.

Inductive connect_result : Type := ConnOk | ConnFail.
Inductive send_result : Type := Sent (n : nat) | SendTimeout | SendFail.
Inductive recv_result : Type := Data (d : bytes) | RecvTimeout | RecvFail.

(** The fields of [ProtocolClient] that concern sockets, followed by the
    environment: the next fresh socket identity, the sockets closed so far
    and the scripts of the results of [sock.connect], [sock.send] and
    [sock.recv], consumed in program order.  A thread that has no entry in
    [_local] has not had its attributes set.  The timeout that
    [settimeout] puts on a socket is not recorded: whether a call times out
    is the script's decision. *)
Record Conn : Type := mkConn {
  _socks : gmap thread sock;
  _local : gmap thread Local;
  _dead : bool;
  next_sock : sock;
  closed : gset sock;
  connects : list connect_result;
  sends : list send_result;
  recvs : list recv_result
}.

Definition set_socks (f : gmap thread sock -> gmap thread sock) (c : Conn) : Conn :=
  mkConn (f (_socks c)) (_local c) (_dead c) (next_sock c) (closed c)
         (connects c) (sends c) (recvs c).
Definition set_local (f : gmap thread Local -> gmap thread Local) (c : Conn) : Conn :=
  mkConn (_socks c) (f (_local c)) (_dead c) (next_sock c) (closed c)
         (connects c) (sends c) (recvs c).
Definition set_dead (b : bool) (c : Conn) : Conn :=
  mkConn (_socks c) (_local c) b (next_sock c) (closed c)
         (connects c) (sends c) (recvs c).
Definition set_next_sock (n : sock) (c : Conn) : Conn :=
  mkConn (_socks c) (_local c) (_dead c) n (closed c)
         (connects c) (sends c) (recvs c).
Definition set_closed (f : gset sock -> gset sock) (c : Conn) : Conn :=
  mkConn (_socks c) (_local c) (_dead c) (next_sock c) (f (closed c))
         (connects c) (sends c) (recvs c).
Definition set_connects (l : list connect_result) (c : Conn) : Conn :=
  mkConn (_socks c) (_local c) (_dead c) (next_sock c) (closed c)
         l (sends c) (recvs c).
Definition set_sends (l : list send_result) (c : Conn) : Conn :=
  mkConn (_socks c) (_local c) (_dead c) (next_sock c) (closed c)
         (connects c) l (recvs c).
Definition set_recvs (l : list recv_result) (c : Conn) : Conn :=
  mkConn (_socks c) (_local c) (_dead c) (next_sock c) (closed c)
         (connects c) (sends c) l.

(** [_close(key)], run by thread [t]. *)
Definition _close (t key : thread) (c : Conn) : Conn :=
  match _socks c !! key with
  | None => c
  | Some s =>
      let c1 := set_socks (delete key) c in
      let c2 := if Nat.eqb key t
                then set_local (insert t (mkLocal [] None)) c1
                else c1 in
      set_closed (fun cl => {[ s ]} ∪ cl) c2
  end.

(** [sock.connect((hostname, port))] *)
Definition sock_connect (c : Conn) : outcome unit * Conn :=
  match connects c with
  | [] => (Blocked, c)
  | ConnOk :: rest => (Ret tt, set_connects rest c)
  | ConnFail :: rest => (Raise OSError, set_connects rest c)
  end.

(** [_get_connection] and [_connect] call each other; [depth] bounds the
    nesting of the calls (it never exceeds four frames, see
    [get_connection_depth]). *)
Fixpoint get_connection_at (depth : nat) (t : thread) (timeout : option Q)
    (c : Conn) {struct depth} : outcome (option sock) * Conn :=
  match depth with
  | O => (OutOfFuel, c)
  | S d =>
      if _dead c then (Ret None, c)
      else
        match _socks c !! t with
        | Some s => (Ret (Some s), c)
        | None =>
            let s := next_sock c in
            let c1 := set_next_sock (S s) (set_socks (insert t s) c) in
            let c2 := set_local (insert t (mkLocal [] (Some s))) c1 in
            match connect_at d t timeout c2 with
            | (Ret _, c3) => (Ret (Some s), c3)
            | (o, c3) => (reraise o, c3)
            end
        end
  end
with connect_at (depth : nat) (t : thread) (timeout : option Q)
    (c : Conn) {struct depth} : outcome unit * Conn :=
  match depth with
  | O => (OutOfFuel, c)
  | S d =>
      let r :=
        match get_connection_at d t timeout c with
        | (Ret (Some _), c1) => sock_connect c1
        | (Ret None, c1) => (Raise AttributeError, c1)
        | (o, c1) => (reraise o, c1)
        end in
      match r with
      | (Raise e, c2) =>
          if is_oserror e then (Raise e, _close t t c2) else (Raise e, c2)
      | _ => r
      end
  end.

Definition _get_connection := get_connection_at 3.
Definition _connect := connect_at 4.

(** [connect(timeout)] *)
Definition connect (t : thread) (timeout : option Q) (c : Conn)
  : outcome unit * Conn :=
  match _local c !! t with
  | None => (Raise AttributeError, c)
  | Some l =>
      let c1 := match l_sock l with Some _ => _close t t c | None => c end in
      _connect t timeout (set_dead false c1)
  end.

(** [close()] *)
Definition close (t : thread) (c : Conn) : Conn :=
  let c1 := set_dead true c in
  let keys := (map_to_list (_socks c1)).*1 in
  let c2 := foldl (fun acc key => _close t key acc) c1 keys in
  set_local (fun _ => ∅) c2.

(** ** Sending and receiving lines *)

Definition newline : byte := x0a.

Definition has_newline (b : bytes) : bool := existsb (Byte.eqb newline) b.

(** [b.partition(b"\n")], without the separator: the bytes before the
    first newline and the bytes after it. *)
Fixpoint partition_nl (b : bytes) : bytes * bytes :=
  match b with
  | [] => ([], [])
  | x :: rest =>
      if Byte.eqb newline x then ([], rest)
      else let '(line, tail) := partition_nl rest in (x :: line, tail)
  end.

(** [sock.send(data)], with the length check of [_send_json]. *)
Definition sock_send (data : bytes) (c : Conn) : outcome unit * Conn :=
  match sends c with
  | [] => (Blocked, c)
  | Sent n :: rest =>
      if Nat.eqb n (length data) then (Ret tt, set_sends rest c)
      else (Raise OSError, set_sends rest c)
  | SendTimeout :: rest => (Raise ProtocolTimeoutError, set_sends rest c)
  | SendFail :: rest => (Raise OSError, set_sends rest c)
  end.

(** The loop [while b"\n" not in self._local.buffer] of [_recv_json]:
    one [sock.recv(1024)] per iteration.  Returns the buffer as the loop
    leaves it, also when it leaves by an exception. *)
Fixpoint recv_loop (osock : option sock) (buf : bytes)
    (script : list recv_result) : outcome unit * bytes * list recv_result :=
  if has_newline buf then (Ret tt, buf, script)
  else
    match osock with
    | None => (Raise AttributeError, buf, script)
    | Some _ =>
        match script with
        | [] => (Blocked, buf, [])
        | RecvTimeout :: rest => (Raise ProtocolTimeoutError, buf, rest)
        | RecvFail :: rest => (Raise OSError, buf, rest)
        | Data [] :: rest => (Raise OSError, buf, rest)
        | Data d :: rest => recv_loop osock (buf ++ d) rest
        end
    end.

Section Codec.

(** Python's [json] module: [json.loads(line.decode("utf-8"))], [None]
    when it raises (both failures are [ValueError]s), and
    [json.dumps(obj).encode("utf-8")]. *)
Variable json_loads : bytes -> option json.
Variable json_dumps : json -> bytes.

(** [_recv_json(timeout)], run by thread [t]. *)
Definition _recv_json (t : thread) (timeout : option Q) (c : Conn)
  : outcome json * Conn :=
  match _get_connection t timeout c with
  | (Ret osock, c1) =>
      match _local c1 !! t with
      | None => (Raise AttributeError, c1)
      | Some l =>
          let '(o, buf, script) := recv_loop osock (l_buffer l) (recvs c1) in
          match o with
          | Ret _ =>
              let '(line, rest) := partition_nl buf in
              let c2 := set_recvs script
                          (set_local (insert t (mkLocal rest (l_sock l))) c1) in
              match json_loads line with
              | Some v => (Ret v, c2)
              | None => (Raise ValueError, c2)
              end
          | _ =>
              (reraise o,
               set_recvs script
                 (set_local (insert t (mkLocal buf (l_sock l))) c1))
          end
      end
  | (o, c1) => (reraise o, c1)
  end.

(** [_send_json(obj, timeout)] *)
Definition _send_json (t : thread) (obj : json) (timeout : option Q) (c : Conn)
  : outcome unit * Conn :=
  match _get_connection t timeout c with
  | (Ret (Some _), c1) => sock_send (json_dumps obj ++ [newline]) c1
  | (Ret None, c1) => (Raise AttributeError, c1)
  | (o, c1) => (reraise o, c1)
  end.

(** ** The RPC layer *)

Record Client : Type := mkClient {
  conn : Conn;
  _notifications : list json;
  clock : Clock
}.

Definition command (name : string) (args : list json)
    (kwargs : list (string * json)) : json :=
  JObj [("command", JStr name); ("args", JArr args); ("kwargs", JObj kwargs)]%string.

(** [max(finish_time - time.time(), 0.0)], or [None] without a deadline. *)
Definition time_left_of (finish_time : option Q) (k : Clock) : option Q * Clock :=
  match finish_time with
  | None => (None, k)
  | Some f => let '(now, k1) := time_time k in (Some (Qmax (f - now) 0)%Q, k1)
  end.

(** The receive loop of [call].  Leaving the [while] by its condition
    falls off the end of the function, which returns [None]. *)
Fixpoint call_loop (fuel : nat) (t : thread) (finish_time : option Q)
    (c : Conn) (q : list json) (k : Clock) : outcome json * Client :=
  match fuel with
  | O => (OutOfFuel, mkClient c q k)
  | S fuel' =>
      let '(go, k1) := before_deadline finish_time k in
      if go then
        let '(time_left, k2) := time_left_of finish_time k1 in
        match _recv_json t time_left c with
        | (Ret obj, c1) =>
            match py_in "return" obj with
            | Ret true => (py_getitem "return" obj, mkClient c1 q k2)
            | Ret false => call_loop fuel' t finish_time c1 (q ++ [obj]) k2
            | o => (reraise o, mkClient c1 q k2)
            end
        | (o, c1) => (reraise o, mkClient c1 q k2)
        end
      else (Ret JNull, mkClient c q k1)
  end.

(** [call(name, *args, timeout=timeout, **kwargs)] *)
Definition call (fuel : nat) (t : thread) (name : string) (args : list json)
    (kwargs : list (string * json)) (timeout : option Q) (cl : Client)
  : outcome json * Client :=
  let '(finish_time, k1) := deadline_of timeout (clock cl) in
  match _send_json t (command name args kwargs) timeout (conn cl) with
  | (Ret _, c1) => call_loop fuel t finish_time c1 (_notifications cl) k1
  | (o, c1) => (reraise o, mkClient c1 (_notifications cl) k1)
  end.

(** [wait_for_notification(timeout)]; Python's [None] is [JNull]. *)
Definition wait_for_notification (t : thread) (timeout : option Q) (cl : Client)
  : outcome json * Client :=
  match _notifications cl with
  | n :: rest => (Ret n, mkClient (conn cl) rest (clock cl))
  | [] =>
      let blocking := match timeout with
                      | None => true
                      | Some x => Qle_bool 0 x
                      end in
      if blocking then
        let '(o, c1) := _recv_json t timeout (conn cl) in
        (o, mkClient c1 [] (clock cl))
      else (Ret JNull, cl)
  end.

End Codec.

(** [n] successive invocations of the line receiver, one per timeout. *)
Fixpoint recv_lines (json_loads : bytes -> option json) (t : thread)
    (timeouts : list (option Q)) (c : Conn) : list (outcome json) * Conn :=
  match timeouts with
  | [] => ([], c)
  | tmo :: rest =>
      let '(o, c1) := _recv_json json_loads t tmo c in
      let '(os, c2) := recv_lines json_loads t rest c1 in
      (o :: os, c2)
  end.

(** The wire form of a sequence of lines: each followed by a newline. *)
Definition unlines (ls : list bytes) : bytes :=
  concat (map (fun l => l ++ [newline]) ls).

Definition decode (json_loads : bytes -> option json) (line : bytes)
  : outcome json :=
  match json_loads line with
  | Some v => Ret v
  | None => Raise ValueError
  end.

(** The thread [t] has a live connection, with [buf] in its read buffer
    and [os] as its thread-local socket. *)
Definition connected (t : thread) (os : option sock) (buf : bytes) (c : Conn)
  : Prop :=
  _dead c = false /\ is_Some (_socks c !! t) /\
  _local c !! t = Some (mkLocal buf os).

(** The state after the line receiver ran: only the buffer of [t] and the
    receive script differ. *)
Definition after_recv (t : thread) (os : option sock) (buf : bytes)
    (script : list recv_result) (c : Conn) : Conn :=
  set_recvs script (set_local (insert t (mkLocal buf os)) c).

(** The line receiver can deliver [obj] to thread [t]. *)
Definition delivered (json_loads : bytes -> option json) (t : thread)
    (obj : json) : Prop :=
  exists tmo c c', _recv_json json_loads t tmo c = (Ret obj, c').

(** What [call] can return normally: the value of the ["return"] key of a
    line it received, or [None] after the deadline passed. *)
Definition call_result (json_loads : bytes -> option json) (t : thread)
    (timeout : option Q) (v : json) : Prop :=
  (exists obj, delivered json_loads t obj /\
               py_in "return" obj = Ret true /\
               py_getitem "return" obj = Ret v) \/
  (v = JNull /\ timeout <> None).

(** What [call] adds to the queue: lines it received in which
    ["return" in obj] is false. *)
Definition queued_by_call (json_loads : bytes -> option json) (t : thread)
    (objs : list json) : Prop :=
  Forall (fun o => delivered json_loads t o /\ py_in "return" o = Ret false)
         objs.

(** ** A small wire for the examples *)

Definition bytes_of (s : string) : bytes := list_byte_of_string s.

(** A stand-in for [json.loads] on the lines of the examples: [R<text>] is
    the response [{"return": "<text>"}], [S<digit>] the response to
    [get_job_state] whose state has the number [<digit>], [N<text>] the
    notification [{"jobs_changed": "<text>"}], and any other line is
    malformed. *)
Definition example_loads (line : bytes) : option json :=
  match line with
  | x52 :: rest =>
      Some (JObj [("return"%string, JStr (string_of_list_byte rest))])
  | [x53; d] =>
      Some (JObj [("return"%string,
                   JObj [("state", JInt (Z.of_N (Byte.to_N d) - 48));
                         ("power", JNull); ("keepalive", JFloat 60);
                         ("reason", JNull)]%string)])
  | x4e :: rest =>
      Some (JObj [("jobs_changed"%string, JStr (string_of_list_byte rest))])
  | _ => None
  end.

(** A stand-in for [json.dumps]: every command is written as [{}]. *)
Definition example_dumps (_ : json) : bytes := bytes_of "{}".

(** Thread 0 holds socket 7 with [buf] in its read buffer; the server will
    accept what is sent and deliver [script]. *)
Definition example_conn (buf : bytes) (script : list recv_result) : Conn :=
  mkConn {[ 0 := 7 ]} {[ 0 := mkLocal buf (Some 7) ]} false 8 ∅
         [] (repeat (Sent 3) 8) script.

Definition example_chunk : bytes :=
  bytes_of "1" ++ newline :: bytes_of "N2" ++ newline :: bytes_of "R".

(** A clock that reads 0, 1, 2, ... *)
Definition example_clock : Clock := mkClock (fun n => inject_Z (Z.of_nat n)) 0.

(** A clock that always reads the same time. *)
Definition frozen_clock : Clock := mkClock (fun _ => 0%Q) 0.

(** ** Deadlines along a receive loop *)

(** The deadline checks of the first [n] iterations of the receive loop of
    [call] pass.  With a deadline every iteration reads the clock twice
    (the loop condition, then [time_left]), so that iteration [i] checks
    the reading [2 * i] after [k]. *)
Definition checks_pass (finish_time : option Q) (k : Clock) (n : nat) : Prop :=
  match finish_time with
  | None => True
  | Some f =>
      forall i, i < n -> Qltb (readings k (2 * i + ticks k)) f = true
  end.

(** The clock after [n] iterations of that loop. *)
Definition after_iterations (finish_time : option Q) (k : Clock) (n : nat)
  : Clock :=
  match finish_time with
  | None => k
  | Some _ => mkClock (readings k) (2 * n + ticks k)
  end.

(** A client whose server answers the next command with two
    notifications and then the response, all in one read. *)
Definition example_lines : bytes :=
  unlines [bytes_of "N1"; bytes_of "N2"; bytes_of "Rok"].

Definition example_client (q : list json) : Client :=
  mkClient (example_conn [] [Data example_lines]) q example_clock.

Definition N1 : json := JObj [("jobs_changed"%string, JStr "1")].
Definition N2 : json := JObj [("jobs_changed"%string, JStr "2")].

(** Successive invocations of [wait_for_notification], one per timeout. *)
Fixpoint next_notifications (json_loads : bytes -> option json) (t : thread)
    (timeouts : list (option Q)) (cl : Client) : list (outcome json) * Client :=
  match timeouts with
  | [] => ([], cl)
  | tmo :: rest =>
      let '(o, cl1) := wait_for_notification json_loads t tmo cl in
      let '(os, cl2) := next_notifications json_loads t rest cl1 in
      (o :: os, cl2)
  end.

(** With a deadline, the check of iteration [n] of the receive loop of
    [call] (the reading [2 * n] after [k]) finds the deadline passed. *)
Definition check_fails (finish_time : option Q) (k : Clock) (n : nat) : Prop :=
  match finish_time with
  | None => False
  | Some f => Qltb (readings k (2 * n + ticks k)) f = false
  end.

(** The clock after [n] iterations and one more check. *)
Definition after_failed_check (k : Clock) (n : nat) : Clock :=
  mkClock (readings k) (S (2 * n + ticks k)).

Definition N0 : json := JObj [("machines_changed"%string, JStr "m")].

(** A client whose server pushes one notification in time and answers the
    command only later. *)
Definition late_client : Client :=
  mkClient (example_conn [] [Data (unlines [bytes_of "N1"]);
                             Data (unlines [bytes_of "Rok"])])
           [] example_clock.

(** ** Sequences of connection-manager operations *)

(** The operations of the connection manager other than [connect], each run
    by a thread. *)
Inductive manager_op : Type :=
| Op_get_connection (t : thread) (timeout : option Q)
| Op_close_one (t key : thread)
| Op_close (t : thread)
| Op_recv_json (t : thread) (timeout : option Q)
| Op_send_json (t : thread) (obj : json) (timeout : option Q).

Definition run_op (json_loads : bytes -> option json)
    (json_dumps : json -> bytes) (c : Conn) (op : manager_op) : Conn :=
  match op with
  | Op_get_connection t tmo => snd (_get_connection t tmo c)
  | Op_close_one t key => _close t key c
  | Op_close t => close t c
  | Op_recv_json t tmo => snd (_recv_json json_loads t tmo c)
  | Op_send_json t obj tmo => snd (_send_json json_dumps t obj tmo c)
  end.

(** Two threads with one socket each, one of them with buffered input. *)
Definition two_conns : Conn :=
  mkConn {[ 0 := 7; 1 := 8 ]}
         {[ 0 := mkLocal (bytes_of "N1") (Some 7); 1 := mkLocal [] (Some 8) ]}
         false 9 ∅ [ConnOk] [Sent 3] [Data (bytes_of "x")].

(** * The job life cycle ([spalloc/job.py]) *)

(** Modelled from the spec: the enumeration [JobState] of
    [spalloc/states.py], which is not part of the sources at hand; the spec
    lists its members as queued, power, ready, destroyed and unknown. *)
Inductive JobState : Type := unknown | queued | power | ready | destroyed.

Definition JobState_eqb (a b : JobState) : bool :=
  match a, b with
  | unknown, unknown | queued, queued | power, power
  | ready, ready | destroyed, destroyed => true
  | _, _ => false
  end.

Record JobStateTuple : Type := mkJobStateTuple {
  js_state : JobState;
  js_power : json;
  js_keepalive : json;
  js_reason : json
}.

Inductive log_entry : Type :=
| LogInfo (msg : string)
| LogWarning (msg : string) (e : exn).

(** What a [Job] calls on the outside world [W]: the clock, [time.sleep],
    the logger, and the methods of its client object.  [Job] only uses the
    client through these methods, so that any object that has them will do;
    [protocol_client] below is the [ProtocolClient] of this repository. *)
Record ClientOps (W : Type) : Type := mkClientOps {
  env_time : W -> Q * W;
  env_sleep : Q -> W -> W;
  env_log : log_entry -> W -> W;
  cl_connect : option Q -> W -> outcome unit * W;
  cl_close : W -> W;
  cl_version : option Q -> W -> outcome json * W;
  cl_notify_job : json -> option Q -> W -> outcome json * W;
  cl_get_job_state : json -> option Q -> W -> outcome json * W;
  cl_job_keepalive : json -> option Q -> W -> outcome json * W;
  cl_wait_for_notification : option Q -> W -> outcome json * W;
  cl_destroy_job : json -> json -> option Q -> W -> outcome json * W
}.
Arguments env_time {W} _ _.
Arguments env_sleep {W} _ _ _.
Arguments env_log {W} _ _ _.
Arguments cl_connect {W} _ _ _.
Arguments cl_close {W} _ _.
Arguments cl_version {W} _ _ _.
Arguments cl_notify_job {W} _ _ _ _.
Arguments cl_get_job_state {W} _ _ _ _.
Arguments cl_job_keepalive {W} _ _ _ _.
Arguments cl_wait_for_notification {W} _ _ _.
Arguments cl_destroy_job {W} _ _ _ _ _.

(** The attributes of a [Job] that its methods read. *)
Record Job : Type := mkJob {
  id : json;
  _keepalive : option Q;
  _timeout : option Q;
  _reconnect_delay : Q
}.

(** [v.split(".")] *)
Fixpoint split_dot (s : string) : list string :=
  match s with
  | EmptyString => [EmptyString]
  | String a rest =>
      match split_dot rest with
      | [] => [String a EmptyString]
      | hd :: tl =>
          if Ascii.eqb a "."%char then EmptyString :: hd :: tl
          else String a hd :: tl
      end
  end.

(** [tuple(map(f, l))] for an [f] that may raise. *)
Fixpoint map_opt {A B : Type} (f : A -> option B) (l : list A) : option (list B) :=
  match l with
  | [] => Some []
  | x :: rest =>
      match f x with
      | None => None
      | Some y =>
          match map_opt f rest with
          | None => None
          | Some ys => Some (y :: ys)
          end
      end
  end.

(** Python's ordering of tuples of integers: the first position where
    the tuples differ decides; a proper prefix is smaller. *)
Fixpoint tuple_ltb (a b : list Z) : bool :=
  match a, b with
  | [], [] => false
  | [], _ :: _ => true
  | _ :: _, [] => false
  | x :: a', y :: b' => if Z.eqb x y then tuple_ltb a' b' else Z.ltb x y
  end.

Fixpoint tuple_leb (a b : list Z) : bool :=
  match a, b with
  | [], _ => true
  | _ :: _, [] => false
  | x :: a', y :: b' => if Z.eqb x y then tuple_leb a' b' else Z.leb x y
  end.

(** The range of the version gate as the spec words it: lexicographic
    comparison of the tuple of components with the two bounds. *)
Inductive lex_lt : list Z -> list Z -> Prop :=
| lex_lt_nil y b : lex_lt [] (y :: b)
| lex_lt_head x y a b : (x < y)%Z -> lex_lt (x :: a) (y :: b)
| lex_lt_tail x a b : lex_lt a b -> lex_lt (x :: a) (x :: b).

Definition lex_le (a b : list Z) : Prop := a = b \/ lex_lt a b.

Definition supported_version (v_ints : list Z) : Prop :=
  lex_le [0; 0; 2]%Z v_ints /\ lex_lt v_ints [2; 0; 0]%Z.

Section JobMethods.

Context {W : Type} (ops : ClientOps W).

(** [JobState(value)]: the conversion of the enumeration, [None] when it
    raises [ValueError].  The values of the members are declared in
    [spalloc/states.py]. *)
Variable JobState_of : json -> option JobState.

(** Python's built-in [int] on a string, [None] when it raises
    [ValueError]. *)
Variable py_int : string -> option Z.

Variable self : Job.

(** [finish_time is None or finish_time > time.time()] *)
Definition time_remains (finish_time : option Q) (w : W) : bool * W :=
  match finish_time with
  | None => (true, w)
  | Some f => let '(now, w1) := env_time ops w in (Qltb now f, w1)
  end.

(** [time.time() + timeout if timeout is not None else None] *)
Definition finish_time_of (timeout : option Q) (w : W) : option Q * W :=
  match timeout with
  | None => (None, w)
  | Some x => let '(now, w1) := env_time ops w in (Some (now + x)%Q, w1)
  end.

(** The tuple built by [get_state] from the server's answer. *)
Definition job_state_tuple (st : json) : outcome JobStateTuple :=
  match py_getitem "state" st with
  | Ret s =>
      match JobState_of s with
      | None => Raise ValueError
      | Some js =>
          match py_getitem "power" st with
          | Ret p =>
              match py_getitem "keepalive" st with
              | Ret k =>
                  match py_getitem "reason" st with
                  | Ret r => Ret (mkJobStateTuple js p k r)
                  | o => reraise o
                  end
              | o => reraise o
              end
          | o => reraise o
          end
      end
  | o => reraise o
  end.

(** [get_state()] *)
Definition get_state (w : W) : outcome JobStateTuple * W :=
  match cl_get_job_state ops (id self) (_timeout self) w with
  | (Ret st, w1) => (job_state_tuple st, w1)
  | (o, w1) => (reraise o, w1)
  end.

(** [tuple(map(int, v.split(".")[:3]))] *)
Definition version_ints (v : string) : option (list Z) :=
  map_opt py_int (firstn 3 (split_dot v)).

Definition compatible (v_ints : list Z) : bool :=
  tuple_leb [0; 0; 2]%Z v_ints && tuple_ltb v_ints [2; 0; 0]%Z.

(** [_assert_compatible_version()] *)
Definition _assert_compatible_version (w : W) : outcome unit * W :=
  match cl_version ops (_timeout self) w with
  | (Ret (JStr v), w1) =>
      match version_ints v with
      | None => (Raise ValueError, w1)
      | Some v_ints =>
          if compatible v_ints then (Ret tt, w1)
          else (Raise ValueError, cl_close ops w1)
      end
  | (Ret _, w1) => (Raise AttributeError, w1)
  | (o, w1) => (reraise o, w1)
  end.

(** [_reconnect()] *)
Definition _reconnect (w : W) : outcome unit * W :=
  let r :=
    match cl_connect ops (_timeout self) w with
    | (Ret _, w1) =>
        match _assert_compatible_version w1 with
        | (Ret _, w2) =>
            (Ret tt, env_log ops (LogInfo "Reconnected successfully.") w2)
        | r2 => r2
        end
    | r1 => r1
    end in
  match r with
  | (Raise e, w3) =>
      if is_oserror e
      then (Ret tt,
            cl_close ops
              (env_log ops (LogWarning "Reconnect attempt failed: %s" e) w3))
      else r
  | _ => r
  end.

(** The timeout of the inner wait of [wait_for_state_change]; dividing
    an unset keepalive raises [TypeError]. *)
Definition wait_timeout_of (finish_time : option Q) (w : W) : outcome Q * W :=
  match finish_time, _keepalive self with
  | Some f, Some ka =>
      let '(now, w1) := env_time ops w in (Ret (Qmin (ka / 2) (f - now))%Q, w1)
  | None, Some ka => (Ret (ka / 2)%Q, w)
  | None, None => (Raise TypeError, w)
  | Some f, None => let '(now, w1) := env_time ops w in (Ret (f - now)%Q, w1)
  end.

(** The innermost loop of [wait_for_state_change]: keep the job alive and
    wait for a notification.  [true] when the loop is left by [break],
    [false] when it is left by its condition (the [else] branch). *)
Fixpoint keepalive_wait (fuel : nat) (finish_time : option Q) (w : W)
  : outcome bool * W :=
  match fuel with
  | O => (OutOfFuel, w)
  | S fuel' =>
      let '(go, w1) := time_remains finish_time w in
      if go then
        match cl_job_keepalive ops (id self) (_timeout self) w1 with
        | (Ret _, w2) =>
            match wait_timeout_of finish_time w2 with
            | (Ret wait_timeout, w3) =>
                if Qle_bool 0 wait_timeout then
                  match cl_wait_for_notification ops (Some wait_timeout) w3 with
                  | (Ret _, w4) => (Ret true, w4)
                  | (Raise e, w4) =>
                      if is_timeout e
                      then keepalive_wait fuel' finish_time w4
                      else (Raise e, w4)
                  | (o, w4) => (reraise o, w4)
                  end
                else keepalive_wait fuel' finish_time w3
            | (o, w3) => (reraise o, w3)
            end
        | (o, w2) => (reraise o, w2)
        end
      else (Ret false, w1)
  end.

(** The loop [while ...: new_state = self.get_state().state ...] of
    [wait_for_state_change].  [Some s] when the function returns [s] from
    inside the loop, [None] when the loop is left by its condition. *)
Fixpoint poll_loop (fuel : nat) (finish_time : option Q) (old_state : JobState)
    (w : W) : outcome (option JobState) * W :=
  match fuel with
  | O => (OutOfFuel, w)
  | S fuel' =>
      let '(go, w1) := time_remains finish_time w in
      if go then
        match get_state w1 with
        | (Ret tup, w2) =>
            if negb (JobState_eqb (js_state tup) old_state)
            then (Ret (Some (js_state tup)), w2)
            else
              match keepalive_wait fuel' finish_time w2 with
              | (Ret true, w3) => poll_loop fuel' finish_time old_state w3
              | (Ret false, w3) => (Ret (Some old_state), w3)
              | (o, w3) => (reraise o, w3)
              end
        | (o, w2) => (reraise o, w2)
        end
      else (Ret None, w1)
  end.

(** The handler [except (IOError, OSError, ProtocolTimeoutError)] of
    [wait_for_state_change]: close, sleep, reconnect. *)
Definition reconnect_after_failure (finish_time : option Q) (w : W)
  : outcome unit * W :=
  let w1 := cl_close ops w in
  let '(delay, w2) :=
    match finish_time with
    | Some f =>
        let '(now, w2) := env_time ops w1 in
        (Qmin (f - now) (_reconnect_delay self), w2)
    | None => (_reconnect_delay self, w1)
    end in
  _reconnect (env_sleep ops (Qmax 0 delay) w2).

(** The outermost loop of [wait_for_state_change]. *)
Fixpoint listen_loop (fuel : nat) (finish_time : option Q) (old_state : JobState)
    (w : W) : outcome JobState * W :=
  match fuel with
  | O => (OutOfFuel, w)
  | S fuel' =>
      let '(go, w1) := time_remains finish_time w in
      if go then
        let r :=
          match cl_notify_job ops (id self) None w1 with
          | (Ret _, w2) => poll_loop fuel' finish_time old_state w2
          | (o, w2) => (reraise o, w2)
          end in
        match r with
        | (Ret (Some s), w3) => (Ret s, w3)
        | (Ret None, w3) => listen_loop fuel' finish_time old_state w3
        | (Raise e, w3) =>
            if is_oserror e || is_timeout e then
              match reconnect_after_failure finish_time w3 with
              | (Ret _, w4) => listen_loop fuel' finish_time old_state w4
              | (o, w4) => (reraise o, w4)
              end
            else (Raise e, w3)
        | (o, w3) => (reraise o, w3)
        end
      else (Ret old_state, w1)
  end.

(** [wait_for_state_change(old_state, timeout)] *)
Definition wait_for_state_change (fuel : nat) (old_state : JobState)
    (timeout : option Q) (w : W) : outcome JobState * W :=
  let '(finish_time, w1) := finish_time_of timeout w in
  listen_loop fuel finish_time old_state w1.

(** [finish_time - time.time()], or [None] without a deadline. *)
Definition remaining_time (finish_time : option Q) (w : W) : option Q * W :=
  match finish_time with
  | None => (None, w)
  | Some f => let '(now, w1) := env_time ops w in (Some (f - now)%Q, w1)
  end.

(** The loop of [wait_until_ready]; [cur_state] is [None] until the first
    poll. *)
Fixpoint ready_loop (fuel : nat) (finish_time : option Q)
    (cur_state : option JobState) (w : W) : outcome unit * W :=
  match fuel with
  | O => (OutOfFuel, w)
  | S fuel' =>
      let '(go, w1) := time_remains finish_time w in
      if go then
        let r :=
          match cur_state with
          | Some s => (Ret s, w1)
          | None =>
              match get_state w1 with
              | (Ret tup, w2) => (Ret (js_state tup), w2)
              | (o, w2) => (reraise o, w2)
              end
          end in
        match r with
        | (Ret s, w2) =>
            let wait w3 :=
              let '(time_left, w4) := remaining_time finish_time w3 in
              match wait_for_state_change fuel' s time_left w4 with
              | (Ret s', w5) => ready_loop fuel' finish_time (Some s') w5
              | (o, w5) => (reraise o, w5)
              end in
            match s with
            | ready => (Ret tt, w2)
            | queued =>
                wait (env_log ops
                        (LogInfo "Job has been queued by the server.") w2)
            | power =>
                wait (env_log ops
                        (LogInfo "Waiting for board power commands to complete.")
                        w2)
            | destroyed =>
                match get_state w2 with
                | (Ret tup, w3) => (Raise (JobDestroyedError (js_reason tup)), w3)
                | (o, w3) => (reraise o, w3)
                end
            | unknown =>
                (Raise (JobDestroyedError
                          (JStr "Server no longer recognises job.")), w2)
            end
        | (o, w2) => (reraise o, w2)
        end
      else (Raise StateChangeTimeoutError, w1)
  end.

(** [wait_until_ready(timeout)] *)
Definition wait_until_ready (fuel : nat) (timeout : option Q) (w : W)
  : outcome unit * W :=
  let '(finish_time, w1) := finish_time_of timeout w in
  ready_loop fuel finish_time None w1.

(** The part of a [Job] that [destroy] changes besides the world: the
    stop event and the keepalive thread. *)
Inductive thread_state : Type := NotStarted | Running | Joined.

Record Runtime : Type := mkRuntime {
  world : W;
  _stop : bool;
  _keepalive_thread : thread_state
}.

(** What the keepalive thread still does to the world after the stop
    event is set and before it ends; [join] waits for it. *)
Variable sentinel_exit : W -> W.

(** [destroy(reason)].  Joining a thread that was never started raises
    [RuntimeError]. *)
Definition destroy (reason : json) (r : Runtime) : outcome unit * Runtime :=
  match _keepalive_thread r with
  | NotStarted => (Raise RuntimeError, mkRuntime (world r) true NotStarted)
  | st =>
      let w0 := match st with
                | Running => sentinel_exit (world r)
                | _ => world r
                end in
      match cl_destroy_job ops (id self) reason None w0 with
      | (Ret _, w1) => (Ret tt, mkRuntime (cl_close ops w1) true Joined)
      | (Raise e, w1) =>
          if is_oserror e || is_timeout e then
            (Ret tt,
             mkRuntime
               (cl_close ops
                  (env_log ops (LogWarning "Could not destroy job: %s" e) w1))
               true Joined)
          else (Raise e, mkRuntime w1 true Joined)
      | (o, w1) => (reraise o, mkRuntime w1 true Joined)
      end
  end.

End JobMethods.

Arguments mkRuntime {W} _ _ _.
Arguments world {W} _.
Arguments _stop {W} _.
Arguments _keepalive_thread {W} _.

(** ** The [ProtocolClient] as the client of a [Job] *)

Record World : Type := mkWorld { client : Client; logged : list log_entry }.

Definition on_client {A : Type} (f : Client -> outcome A * Client) (w : World)
  : outcome A * World :=
  let '(o, cl) := f (client w) in (o, mkWorld cl (logged w)).

Definition on_conn (f : Conn -> Conn) (w : World) : World :=
  mkWorld (mkClient (f (conn (client w))) (_notifications (client w))
             (clock (client w)))
          (logged w).

(** The methods of [ProtocolClient] run by thread [t]; [fuel] bounds the
    receive loop of each [call]. *)
Definition protocol_client (json_loads : bytes -> option json)
    (json_dumps : json -> bytes) (fuel : nat) (t : thread) : ClientOps World :=
  let rpc name args tmo := on_client (call json_loads json_dumps fuel t name args [] tmo) in
  {| env_time w :=
       let '(now, k) := time_time (clock (client w)) in
       (now, mkWorld (mkClient (conn (client w)) (_notifications (client w)) k)
               (logged w));
     env_sleep _ w := w;
     env_log e w := mkWorld (client w) (logged w ++ [e]);
     cl_connect tmo w :=
       let '(o, c) := connect t tmo (conn (client w)) in
       (o, on_conn (fun _ => c) w);
     cl_close := on_conn (close t);
     cl_version tmo := rpc "version"%string [] tmo;
     cl_notify_job job_id tmo := rpc "notify_job"%string [job_id] tmo;
     cl_get_job_state job_id tmo := rpc "get_job_state"%string [job_id] tmo;
     cl_job_keepalive job_id tmo := rpc "job_keepalive"%string [job_id] tmo;
     cl_wait_for_notification tmo :=
       on_client (wait_for_notification json_loads t tmo);
     cl_destroy_job job_id reason tmo :=
       rpc "destroy_job"%string [job_id; reason] tmo |}.

(** ** Stand-ins for the examples of the job layer *)

(** [int] on strings of decimal digits. *)
Definition digit_of (a : ascii) : option Z :=
  let n := nat_of_ascii a in
  if (48 <=? n) && (n <=? 57) then Some (Z.of_nat (n - 48)) else None.

Fixpoint decimal_from (acc : Z) (s : string) : option Z :=
  match s with
  | EmptyString => Some acc
  | String a rest =>
      match digit_of a with
      | Some d => decimal_from (10 * acc + d)%Z rest
      | None => None
      end
  end.

Definition decimal_int (s : string) : option Z :=
  match s with
  | EmptyString => None
  | _ => decimal_from 0 s
  end.

(** The values of the members of [JobState] in the examples. *)
Definition example_JobState_of (v : json) : option JobState :=
  match v with
  | JInt 0 => Some unknown
  | JInt 1 => Some queued
  | JInt 2 => Some power
  | JInt 3 => Some ready
  | JInt 4 => Some destroyed
  | _ => None
  end.

Arguments example_JobState_of _ : simpl never.

Definition example_job : Job := mkJob (JInt 12) (Some 60%Q) (Some 5%Q) 1%Q.

(** The world of a job whose client is connected and whose server will
    deliver [script]. *)
Definition example_world (script : list recv_result) : World :=
  mkWorld (mkClient (example_conn [] script) [] example_clock) [].

Definition example_ops : ClientOps World :=
  protocol_client example_loads example_dumps 4 0.

(** A world whose connection breaks at the next [send]. *)
Definition broken_world : World :=
  mkWorld (mkClient (set_sends [SendFail] (example_conn [] [])) []
             example_clock) [].

(** ** A server that keeps answering *)

(** [clk] reads the clock of a world; an operation [advances] it when it
    only consumes readings. *)
Definition advances {W : Type} (clk : W -> Clock) (w w' : W) : Prop :=
  readings (clk w') = readings (clk w) /\ ticks (clk w) <= ticks (clk w').

(** The worlds in [Inv] are healthy for the job [self]: [time.time()]
    reads the clock [clk], and every request of the waiting loops is
    answered, each leaving a world in [Inv]: subscriptions and keepalives
    succeed, the state of the job can be polled, and waiting for a
    notification either delivers one or times out. *)
Record healthy {W : Type} (ops : ClientOps W)
    (JobState_of : json -> option JobState) (self : Job)
    (clk : W -> Clock) (Inv : W -> Prop) : Prop := mkHealthy {
  h_time : forall w, Inv w ->
    exists w', env_time ops w = (readings (clk w) (ticks (clk w)), w') /\
               Inv w' /\ readings (clk w') = readings (clk w) /\
               ticks (clk w') = S (ticks (clk w));
  h_log : forall e w, Inv w ->
    Inv (env_log ops e w) /\ advances clk w (env_log ops e w);
  h_notify : forall w, Inv w ->
    exists v w', cl_notify_job ops (id self) None w = (Ret v, w') /\
                 Inv w' /\ advances clk w w';
  h_keepalive : forall w, Inv w ->
    exists v w', cl_job_keepalive ops (id self) (_timeout self) w = (Ret v, w') /\
                 Inv w' /\ advances clk w w';
  h_poll : forall w, Inv w ->
    exists tup w', get_state ops JobState_of self w = (Ret tup, w') /\
                   Inv w' /\ advances clk w w';
  h_wait : forall tmo w, Inv w ->
    exists o w', cl_wait_for_notification ops tmo w = (o, w') /\
                 Inv w' /\ advances clk w w' /\
                 ((exists v, o = Ret v) \/ o = Raise ProtocolTimeoutError)
}.

(** The clock [k] reaches every time: its readings end up beyond any
    bound. *)
Definition unbounded (k : Clock) : Prop :=
  forall x : Q, exists N, forall n, N <= n -> (x <= readings k n)%Q.

(** What a normal return [s] of [wait_for_state_change] can be: the old
    state, or a state that differs from it and was the answer of the poll
    that the function made last, from a world in [Inv] and leaving the
    world [w'] that the function returns. *)
Definition state_observed {W : Type} (ops : ClientOps W)
    (JobState_of : json -> option JobState) (self : Job) (Inv : W -> Prop)
    (old_state s : JobState) (w' : W) : Prop :=
  s = old_state \/
  (s <> old_state /\
   exists w1 tup, Inv w1 /\
                  get_state ops JobState_of self w1 = (Ret tup, w') /\
                  js_state tup = s).

(** A healthy world whose clock has the readings [rd]. *)
Definition on_clock {W : Type} (clk : W -> Clock) (Inv : W -> Prop)
    (rd : nat -> Q) (w : W) : Prop :=
  Inv w /\ readings (clk w) = rd.

(** A simulated client for the examples: its world is just the clock; the
    server answers every request at once, reports the job in the state
    numbered [n], and never pushes a notification. *)
Definition quiet_state (n : Z) : json :=
  JObj [("state", JInt n); ("power", JNull); ("keepalive", JFloat 60);
        ("reason", JStr "gone")]%string.

Definition quiet_server (n : Z) : ClientOps Clock :=
  {| env_time := time_time;
     env_sleep _ k := k;
     env_log _ k := k;
     cl_connect _ k := (Ret tt, k);
     cl_close k := k;
     cl_version _ k := (Ret (JStr "1.0.0"), k);
     cl_notify_job _ _ k := (Ret JNull, k);
     cl_get_job_state _ _ k := (Ret (quiet_state n), k);
     cl_job_keepalive _ _ k := (Ret JNull, k);
     cl_wait_for_notification _ k := (Raise ProtocolTimeoutError, k);
     cl_destroy_job _ _ _ k := (Ret JNull, k) |}.

(** Some poll of the job's state, made in a world of [Inv], reported the
    state [s]. *)
Definition polled {W : Type} (ops : ClientOps W)
    (JobState_of : json -> option JobState) (self : Job) (Inv : W -> Prop)
    (s : JobState) : Prop :=
  exists w1 tup w2, Inv w1 /\
                    get_state ops JobState_of self w1 = (Ret tup, w2) /\
                    js_state tup = s.

(** How [wait_until_ready] can end when its deadline is [f] on a clock
    with the readings [rd]: normally after a poll reported ready; with
    [JobDestroyedError] carrying the reason that the poll made last
    reported, after a poll reported destroyed; with [JobDestroyedError] and
    the fixed message after a poll reported unknown; or with
    [StateChangeTimeoutError] after the clock read the deadline or later. *)
Definition ready_verdict {W : Type} (ops : ClientOps W)
    (JobState_of : json -> option JobState) (self : Job) (Inv : W -> Prop)
    (rd : nat -> Q) (f : Q) (r : outcome unit) (w' : W) : Prop :=
  (r = Ret tt /\ polled ops JobState_of self Inv ready) \/
  (polled ops JobState_of self Inv destroyed /\
   exists w1 tup, Inv w1 /\
                  get_state ops JobState_of self w1 = (Ret tup, w') /\
                  r = Raise (JobDestroyedError (js_reason tup))) \/
  (polled ops JobState_of self Inv unknown /\
   r = Raise (JobDestroyedError (JStr "Server no longer recognises job."))) \/
  (r = Raise StateChangeTimeoutError /\ exists n, (f <= rd n)%Q).

(** The readings of the clock never go back. *)
Definition monotone (k : Clock) : Prop :=
  forall i j, i <= j -> (readings k i <= readings k j)%Q.

(** The state [s] that a turn of the loop of [wait_until_ready] looks at,
    and the world [w2] it has then: the state it already holds, or the
    one its first poll reports. *)
Definition held {W : Type} (ops : ClientOps W)
    (JobState_of : json -> option JobState) (self : Job)
    (cur : option JobState) (w1 : W) (s : JobState) (w2 : W) : Prop :=
  (cur = Some s /\ w2 = w1) \/
  (cur = None /\
   exists tup, get_state ops JobState_of self w1 = (Ret tup, w2) /\
               js_state tup = s).

(** ** Runs of the waiting loops *)

(** The message that [wait_until_ready] logs for a state in which it goes
    on waiting; the other states end the wait. *)
Definition waiting_log (s : JobState) : option log_entry :=
  match s with
  | queued => Some (LogInfo "Job has been queued by the server.")
  | power => Some (LogInfo "Waiting for board power commands to complete.")
  | _ => None
  end.

Section Runs.

Context {W : Type} (ops : ClientOps W).
Variable JobState_of : json -> option JobState.
Variable py_int : string -> option Z.
Variable self : Job.


(** Turns of the loop of [wait_until_ready] that go on waiting, from the
    state [cur] held in the world [w] to the state [cur'] held in the world
    [w']: each turn starts before the deadline, holds a state that is
    queued or power, and its [wait_for_state_change] returns the state of
    the next turn. *)
Inductive waiting_turns (finish_time : option Q)
  : option JobState -> W -> option JobState -> W -> Prop :=
| turns_none cur w : waiting_turns finish_time cur w cur w
| turns_more cur w w1 s w2 msg time_left w4 k s' w5 cur' w' :
    time_remains ops finish_time w = (true, w1) ->
    held ops JobState_of self cur w1 s w2 ->
    waiting_log s = Some msg ->
    remaining_time ops finish_time (env_log ops msg w2) = (time_left, w4) ->
    wait_for_state_change ops JobState_of py_int self k s time_left w4
    = (Ret s', w5) ->
    waiting_turns finish_time (Some s') w5 cur' w' ->
    waiting_turns finish_time cur w cur' w'.

End Runs.

(** A job whose requests have no timeout of their own. *)
Definition patient_job : Job := mkJob (JInt 12) (Some 60%Q) None 1%Q.

(** The server acknowledges the subscription, reports the job queued,
    acknowledges the keepalive, pushes a notification and then reports the
    job ready. *)
Definition change_script : list recv_result :=
  map (fun l => Data (unlines [bytes_of l])) ["R"; "S1"; "R"; "N12"; "S3"]%string.

(** The server reports the job queued, acknowledges the subscription,
    reports it queued again, acknowledges the keepalive, pushes a
    notification and then reports the job ready. *)
Definition ready_script : list recv_result :=
  map (fun l => Data (unlines [bytes_of l]))
      ["S1"; "R"; "S1"; "R"; "N12"; "S3"]%string.

(** The server reports the job queued, acknowledges the subscription and
    then reports the job ready. *)
Definition late_ready_script : list recv_result :=
  map (fun l => Data (unlines [bytes_of l])) ["S1"; "R"; "S3"]%string.


(** * Properties *)

(** ** Bytes and lines *)

Lemma has_newline_app (a b : bytes) :
  has_newline (a ++ b) = has_newline a || has_newline b.
Proof. unfold has_newline. apply existsb_app. Qed.

Lemma has_newline_cons (x : byte) (b : bytes) :
  has_newline (x :: b) = Byte.eqb newline x || has_newline b.
Proof. reflexivity. Qed.

Lemma has_newline_mid (line rest : bytes) :
  has_newline (line ++ newline :: rest) = true.
Proof.
  rewrite has_newline_app, has_newline_cons.
  replace (Byte.eqb newline newline) with true by reflexivity.
  now rewrite orb_true_r.
Qed.

Lemma partition_nl_line (line rest : bytes) :
  has_newline line = false ->
  partition_nl (line ++ newline :: rest) = (line, rest).
Proof.
  induction line as [|x line IH]; intros H.
  - reflexivity.
  - rewrite has_newline_cons in H. apply orb_false_elim in H as [Hx Hl].
    cbn [app partition_nl]. rewrite Hx, (IH Hl). reflexivity.
Qed.

Lemma partition_nl_spec (b : bytes) :
  has_newline b = true ->
  exists line rest,
    partition_nl b = (line, rest) /\ b = line ++ newline :: rest /\
    has_newline line = false.
Proof.
  induction b as [|x b IH]; intros H; [discriminate|].
  cbn [partition_nl]. destruct (Byte.eqb newline x) eqn:Hx.
  - apply Byte.byte_dec_bl in Hx. subst x.
    exists [], b. repeat split.
  - rewrite has_newline_cons, Hx in H. cbn [orb] in H.
    destruct (IH H) as (line & rest & Hp & Hb & Hl).
    exists (x :: line), rest. rewrite Hp. repeat split.
    + cbn [app]. now rewrite Hb.
    + rewrite has_newline_cons, Hx. exact Hl.
Qed.

Lemma recv_loop_ready (os : option sock) (buf : bytes) script :
  has_newline buf = true -> recv_loop os buf script = (Ret tt, buf, script).
Proof. intros H. destruct script; cbn [recv_loop]; rewrite H; reflexivity. Qed.

Lemma recv_loop_skip (s : sock) (cs : list bytes) : forall buf script,
  Forall (fun d => d <> []) cs ->
  has_newline (buf ++ concat cs) = false ->
  recv_loop (Some s) buf (map Data cs ++ script)
  = recv_loop (Some s) (buf ++ concat cs) script.
Proof.
  induction cs as [|d cs IH]; intros buf script Hne Hnl.
  - cbn [concat map app]. now rewrite app_nil_r.
  - inversion Hne as [|? ? Hd Hcs]; subst.
    cbn [concat] in Hnl. rewrite app_assoc in Hnl.
    assert (Hb : has_newline buf = false).
    { rewrite !has_newline_app in Hnl.
      destruct (has_newline buf); [discriminate | reflexivity]. }
    cbn [map app recv_loop]. rewrite Hb.
    destruct d as [|x d]; [congruence|].
    rewrite (IH _ _ Hcs Hnl). cbn [concat]. now rewrite app_assoc.
Qed.

(** ** The line receiver *)

Lemma get_connection_connected t os buf tmo c :
  connected t os buf c ->
  exists s, _get_connection t tmo c = (Ret (Some s), c).
Proof.
  intros (Hd & [s Hs] & _). exists s.
  unfold _get_connection. cbn [get_connection_at]. now rewrite Hd, Hs.
Qed.

Lemma connected_after_recv t os buf buf' script c :
  connected t os buf c -> connected t os buf' (after_recv t os buf' script c).
Proof.
  intros (Hd & Hs & _). repeat split; cbn; try assumption.
  apply lookup_insert_eq.
Qed.

Section Receiver.

Variable json_loads : bytes -> option json.

(** A complete line already in the buffer is delivered without reading
    from the socket. *)
Lemma recv_json_buffered t os tmo c line rest :
  connected t os (line ++ newline :: rest) c ->
  has_newline line = false ->
  _recv_json json_loads t tmo c
  = (decode json_loads line, after_recv t os rest (recvs c) c).
Proof.
  intros Hc Hl. destruct (get_connection_connected _ _ _ tmo _ Hc) as [s Hg].
  destruct Hc as (_ & _ & Hloc).
  unfold _recv_json. rewrite Hg, Hloc. cbn [l_buffer l_sock].
  rewrite recv_loop_ready by apply has_newline_mid.
  rewrite (partition_nl_line _ _ Hl). unfold decode, after_recv.
  destruct (json_loads line); reflexivity.
Qed.

(** Otherwise the receiver reads chunks until the buffer holds a newline. *)
Lemma recv_json_read t os tmo c buf cs d script line rest :
  connected t os buf c ->
  recvs c = map Data (cs ++ [d]) ++ script ->
  Forall (fun x => x <> []) (cs ++ [d]) ->
  has_newline (buf ++ concat cs) = false ->
  buf ++ concat (cs ++ [d]) = line ++ newline :: rest ->
  has_newline line = false ->
  _recv_json json_loads t tmo c
  = (decode json_loads line, after_recv t os rest script c).
Proof.
  intros Hc Hr Hne Hnl Heq Hl.
  destruct (get_connection_connected _ _ _ tmo _ Hc) as [s Hg].
  destruct Hc as (_ & _ & Hloc).
  unfold _recv_json. rewrite Hg, Hloc. cbn [l_buffer l_sock].
  apply Forall_app in Hne as [Hcs Hd]. inversion Hd as [|? ? Hd' _]; subst.
  rewrite Hr, map_app, <- app_assoc, (recv_loop_skip _ _ _ _ Hcs Hnl).
  cbn [map app recv_loop]. rewrite Hnl.
  destruct d as [|x d]; [congruence|].
  rewrite concat_app in Heq. cbn [concat] in Heq.
  rewrite app_nil_r, app_assoc in Heq.
  rewrite Heq, recv_loop_ready by apply has_newline_mid.
  rewrite (partition_nl_line _ _ Hl). unfold decode, after_recv.
  destruct (json_loads line); reflexivity.
Qed.

End Receiver.

Lemma after_recv_id t os buf c :
  connected t os buf c -> after_recv t os buf (recvs c) c = c.
Proof.
  intros (_ & _ & Hl). destruct c. unfold after_recv, set_recvs, set_local.
  cbn in *. f_equal. now apply insert_id.
Qed.

Lemma after_recv_twice t os b1 b2 s1 s2 c :
  after_recv t os b2 s2 (after_recv t os b1 s1 c) = after_recv t os b2 s2 c.
Proof.
  unfold after_recv, set_recvs, set_local. cbn. f_equal.
  apply insert_insert_eq.
Qed.

Lemma unlines_cons (l : bytes) (ls : list bytes) (tail : bytes) :
  unlines (l :: ls) ++ tail = l ++ newline :: (unlines ls ++ tail).
Proof.
  unfold unlines. cbn [map concat]. now rewrite <- !app_assoc.
Qed.

Section ReceiverLines.

Variable json_loads : bytes -> option json.

(** Lines that are already buffered are delivered one per invocation. *)
Lemma recv_lines_buffered t os (ls : list bytes) :
  forall timeouts c remaining,
    connected t os (unlines ls ++ remaining) c ->
    length timeouts = length ls ->
    Forall (fun l => has_newline l = false) ls ->
    recv_lines json_loads t timeouts c
    = (map (decode json_loads) ls, after_recv t os remaining (recvs c) c).
Proof.
  induction ls as [|l ls IH]; intros timeouts c remaining Hc Hlen Hnl.
  - destruct timeouts; [|discriminate]. cbn [recv_lines map].
    change (unlines [] ++ remaining) with remaining in Hc.
    now rewrite (after_recv_id _ _ _ _ Hc).
  - destruct timeouts as [|tmo timeouts]; [discriminate|].
    inversion Hnl as [|? ? Hl Hls]; subst.
    rewrite unlines_cons in Hc. cbn [recv_lines].
    rewrite (recv_json_buffered _ _ _ _ _ _ _ Hc Hl).
    pose proof (connected_after_recv _ _ _ (unlines ls ++ remaining)
                  (recvs c) _ Hc) as Hc'.
    rewrite (IH timeouts _ remaining Hc') by (cbn in Hlen; lia || assumption).
    cbn [map]. now rewrite after_recv_twice.
Qed.

(** C10.  The line receiver reads from the socket only until its buffer
    holds a newline, takes exactly the bytes up to and including the first
    newline and keeps every byte after it: when the buffer and the chunks
    read hold the lines [l1 :: ls] followed by [remaining], the next
    invocations return these lines decoded, one per invocation and in
    order, and leave [remaining] in the buffer; only the first invocation
    reads from the socket. *)
Theorem recv_json_one_line_per_call :
  forall t os c buf (cs : list bytes) script l1 ls remaining timeouts,
    connected t os buf c ->
    recvs c = map Data cs ++ script ->
    Forall (fun d => d <> []) cs ->
    (cs <> [] -> has_newline (buf ++ concat (removelast cs)) = false) ->
    buf ++ concat cs = unlines (l1 :: ls) ++ remaining ->
    Forall (fun l => has_newline l = false) (l1 :: ls) ->
    length timeouts = S (length ls) ->
    recv_lines json_loads t timeouts c
    = (map (decode json_loads) (l1 :: ls),
       after_recv t os remaining script c).
Proof.
  intros t os c buf cs script l1 ls remaining timeouts
         Hc Hr Hne Hmin Heq Hnl Hlen.
  assert (Hcase : cs = [] \/ cs <> [])
    by (destruct cs; [now left | now right]).
  destruct Hcase as [->|Hcs].
  - cbn [concat map app] in *. rewrite app_nil_r in Heq. subst buf.
    rewrite (recv_lines_buffered _ _ _ _ _ _ Hc Hlen Hnl). now rewrite Hr.
  - destruct timeouts as [|tmo timeouts]; [discriminate|].
    inversion Hnl as [|? ? Hl Hls]; subst.
    specialize (Hmin Hcs).
    rewrite (app_removelast_last [] Hcs) in Hr, Hne, Heq.
    rewrite unlines_cons in Heq. cbn [recv_lines].
    rewrite (recv_json_read _ _ _ _ _ _ _ _ _ _ _ Hc Hr Hne Hmin Heq Hl).
    pose proof (connected_after_recv _ _ _ (unlines ls ++ remaining)
                  script _ Hc) as Hc'.
    rewrite (recv_lines_buffered _ _ _ _ _ _ Hc') by (cbn in Hlen; lia || assumption).
    cbn [map]. now rewrite after_recv_twice.
Qed.

End ReceiverLines.

Lemma recv_json_one_line_per_call_witness :
  recv_lines example_loads 0 [None; Some 1%Q]
    (example_conn (bytes_of "N") [Data example_chunk])
  = (map (decode example_loads) [bytes_of "N1"; bytes_of "N2"],
     after_recv 0 (Some 7) (bytes_of "R") []
       (example_conn (bytes_of "N") [Data example_chunk])).
Proof.
  apply (recv_json_one_line_per_call example_loads 0 (Some 7) _
           (bytes_of "N") [example_chunk] [] (bytes_of "N1") [bytes_of "N2"]
           (bytes_of "R") _).
  - repeat split; try reflexivity. exists 7. reflexivity.
  - reflexivity.
  - repeat constructor; discriminate.
  - intros _. reflexivity.
  - reflexivity.
  - repeat constructor.
  - reflexivity.
Defined.

(** ** The timeout argument *)

(** The timeout only configures the socket; which calls time out is the
    script's decision, so the model's connection functions do not depend
    on it. *)
Lemma connection_timeout_irrelevant (depth : nat) :
  forall t tmo tmo' c,
    get_connection_at depth t tmo c = get_connection_at depth t tmo' c /\
    connect_at depth t tmo c = connect_at depth t tmo' c.
Proof.
  induction depth as [|d IH]; intros t tmo tmo' c; [now split|].
  destruct (IH t tmo tmo' c) as [IHg IHc]. split.
  - cbn [get_connection_at]. destruct (_dead c); [reflexivity|].
    destruct (_socks c !! t); [reflexivity|].
    now rewrite (proj2 (IH t tmo tmo' _)).
  - cbn [connect_at]. now rewrite IHg.
Qed.

Lemma recv_json_timeout_irrelevant loads t tmo tmo' c :
  _recv_json loads t tmo c = _recv_json loads t tmo' c.
Proof.
  unfold _recv_json, _get_connection.
  now rewrite (proj1 (connection_timeout_irrelevant 3 t tmo tmo' c)).
Qed.

(** ** The receive loop of [call] *)

Lemma call_loop_iteration loads fuel t finish c q k n :
  checks_pass finish k (S n) ->
  call_loop loads (S fuel) t finish c q k
  = let k' := after_iterations finish k 1 in
    match _recv_json loads t None c with
    | (Ret obj, c1) =>
        match py_in "return" obj with
        | Ret true => (py_getitem "return" obj, mkClient c1 q k')
        | Ret false => call_loop loads fuel t finish c1 (q ++ [obj]) k'
        | o => (reraise o, mkClient c1 q k')
        end
    | (o, c1) => (reraise o, mkClient c1 q k')
    end.
Proof.
  intros H. destruct finish as [f|].
  - cbn [checks_pass] in H. specialize (H 0 ltac:(lia)).
    change (2 * 0 + ticks k) with (ticks k) in H.
    cbn [call_loop before_deadline time_time time_left_of]. rewrite H.
    cbn [readings ticks].
    now rewrite (recv_json_timeout_irrelevant loads t _ None c).
  - reflexivity.
Qed.

Lemma checks_pass_tail finish k n :
  checks_pass finish k (S n) ->
  checks_pass finish (after_iterations finish k 1) n.
Proof.
  destruct finish as [f|]; intros H; [|exact I].
  cbn [checks_pass after_iterations readings ticks] in *.
  intros i Hi. specialize (H (S i) ltac:(lia)).
  replace (2 * i + (2 * 1 + ticks k)) with (2 * S i + ticks k) by lia.
  exact H.
Qed.

Lemma after_iterations_S finish k n :
  after_iterations finish (after_iterations finish k 1) n
  = after_iterations finish k (S n).
Proof.
  destruct finish as [f|]; [|reflexivity].
  cbn [after_iterations readings ticks]. f_equal. lia.
Qed.

Lemma recv_lines_cons_inv loads t tmo rest c o os c2 :
  recv_lines loads t (tmo :: rest) c = (o :: os, c2) ->
  exists c1, _recv_json loads t tmo c = (o, c1) /\
             recv_lines loads t rest c1 = (os, c2).
Proof.
  cbn [recv_lines]. destruct (_recv_json loads t tmo c) as [o1 c1].
  destruct (recv_lines loads t rest c1) as [os1 c3] eqn:E.
  intros H. injection H as -> -> ->. exists c1. split; [reflexivity | exact E].
Qed.

Lemma py_in_object (o : json) :
  is_object o = true -> py_in "return" o = Ret (has_return o).
Proof. destruct o; try discriminate. reflexivity. Qed.

Section Call.

Variable json_loads : bytes -> option json.
Variable json_dumps : json -> bytes.

(** The loop queues the notifications it receives and stops at the first
    response. *)
Lemma call_loop_delivers t finish kvs v (objs : list json) :
  assoc "return" kvs = Some v ->
  forall fuel c q k timeouts c2,
    recv_lines json_loads t timeouts c = (map Ret (objs ++ [JObj kvs]), c2) ->
    length timeouts = S (length objs) ->
    Forall (fun o => is_object o = true /\ has_return o = false) objs ->
    checks_pass finish k (S (length objs)) ->
    length objs < fuel ->
    call_loop json_loads fuel t finish c q k
    = (Ret v, mkClient c2 (q ++ objs)
                (after_iterations finish k (S (length objs)))).
Proof.
  intros Hv. induction objs as [|o objs IH];
    intros fuel c q k timeouts c2 Hr Hlen Hobjs Hchk Hfuel;
    (destruct fuel as [|fuel]; [cbn in Hfuel; lia|]);
    (destruct timeouts as [|tmo timeouts]; [discriminate|]);
    cbn [app map] in Hr;
    apply recv_lines_cons_inv in Hr as (c1 & Hrecv & Hrest);
    rewrite (recv_json_timeout_irrelevant _ _ tmo None) in Hrecv;
    rewrite (call_loop_iteration _ _ _ _ _ _ _ _ Hchk); cbv zeta;
    rewrite Hrecv.
  - destruct timeouts; [|discriminate]. cbn [recv_lines] in Hrest.
    injection Hrest as <-.
    cbn [py_in py_getitem]. rewrite Hv. now rewrite app_nil_r.
  - inversion Hobjs as [|? ? [Ho Hn] Hobjs']; subst.
    rewrite (py_in_object _ Ho), Hn.
    rewrite (IH fuel c1 (q ++ [o]) _ timeouts c2 Hrest).
    + now rewrite <- app_assoc, after_iterations_S.
    + cbn in Hlen. lia.
    + assumption.
    + now apply checks_pass_tail.
    + cbn in Hfuel. lia.
Qed.

(** Whatever the outcome of the loop, the queue only grows by received
    lines without a ["return"] key, and a normal result is the value of the
    ["return"] key of a received line, or [None]. *)
Lemma call_loop_sound t finish fuel :
  forall c q k r cl',
    call_loop json_loads fuel t finish c q k = (r, cl') ->
    (exists objs, _notifications cl' = q ++ objs /\
                  queued_by_call json_loads t objs) /\
    (forall v, r = Ret v ->
       (exists obj, delivered json_loads t obj /\
                    py_in "return" obj = Ret true /\
                    py_getitem "return" obj = Ret v) \/
       (v = JNull /\ finish <> None)).
Proof.
  assert (Hnil : forall q : list json,
             exists objs, q = q ++ objs /\ queued_by_call json_loads t objs).
  { intros q. exists []. split; [now rewrite app_nil_r | constructor]. }
  induction fuel as [|fuel IH]; intros c q k r cl' H; cbn [call_loop] in H.
  - injection H as <- <-. split; [apply Hnil | discriminate].
  - destruct (before_deadline finish k) as [[] k1] eqn:Hb.
    2:{ injection H as <- <-. split; [apply Hnil|].
        intros v [= <-]. right. split; [reflexivity|].
        destruct finish; [discriminate | cbn in Hb; discriminate]. }
    destruct (time_left_of finish k1) as [time_left k2].
    destruct (_recv_json json_loads t time_left c) as [[obj| | |] c1] eqn:Hr;
      try (injection H as <- <-; split; [apply Hnil | discriminate]).
    destruct (py_in "return" obj) as [[]| | |] eqn:Hin;
      try (injection H as <- <-; split; [apply Hnil | discriminate]).
    + injection H as <- <-. split; [apply Hnil|].
      intros v Hv. left. exists obj. repeat split; try assumption.
      now exists time_left, c, c1.
    + destruct (IH c1 (q ++ [obj]) k2 r cl' H) as [(objs & Hq & Hobjs) Hres].
      split; [|exact Hres].
      exists (obj :: objs). split; [now rewrite Hq, <- app_assoc|].
      constructor; [|exact Hobjs]. split; [|exact Hin].
      now exists time_left, c, c1.
Qed.

(** C1.  For every command name and arguments: whatever the outcome of
    [call], the queue only grows, by lines that were received and have no
    ["return"] key, and a normal result is the value of the ["return"] key
    of a received line, never a notification (or it is [None], when a
    deadline passed).  And once the command is sent, if the line receiver
    delivers the notifications [objs] (JSON objects without a ["return"]
    key) and then the response [JObj kvs], the first line with a
    ["return"] key, while the deadline (if any) has not passed at the
    loop's checks, then [call] returns exactly the value of that key, and
    every one of the notifications is appended to the queue, in the order
    of arrival. *)
Theorem call_returns_first_return :
  forall fuel t name args kwargs timeout cl,
    (forall r cl',
        call json_loads json_dumps fuel t name args kwargs timeout cl
        = (r, cl') ->
        (exists objs, _notifications cl' = _notifications cl ++ objs /\
                      queued_by_call json_loads t objs) /\
        (forall v, r = Ret v -> call_result json_loads t timeout v)) /\
    (forall c1 c2 objs kvs v timeouts,
        _send_json json_dumps t (command name args kwargs) timeout (conn cl)
        = (Ret tt, c1) ->
        recv_lines json_loads t timeouts c1
        = (map Ret (objs ++ [JObj kvs]), c2) ->
        length timeouts = S (length objs) ->
        Forall (fun o => is_object o = true /\ has_return o = false) objs ->
        assoc "return" kvs = Some v ->
        checks_pass (fst (deadline_of timeout (clock cl)))
                    (snd (deadline_of timeout (clock cl))) (S (length objs)) ->
        length objs < fuel ->
        call json_loads json_dumps fuel t name args kwargs timeout cl
        = (Ret v,
           mkClient c2 (_notifications cl ++ objs)
             (after_iterations (fst (deadline_of timeout (clock cl)))
                (snd (deadline_of timeout (clock cl))) (S (length objs))))).
Proof.
  intros fuel t name args kwargs timeout cl. split.
  - intros r cl' H. unfold call in H.
    destruct (deadline_of timeout (clock cl)) as [finish k1] eqn:Hd.
    destruct (_send_json json_dumps t (command name args kwargs) timeout
                (conn cl)) as [[[]| | |] c1].
    + destruct (call_loop_sound t finish fuel c1 _ k1 r cl' H) as [Hq Hres].
      split; [exact Hq|]. intros v Hv.
      destruct (Hres v Hv) as [Hobj|[-> Hf]]; [now left | right].
      split; [reflexivity|]. intros ->. cbn in Hd. injection Hd as <- _.
      now apply Hf.
    + injection H as <- <-. split; [|discriminate].
      exists []. split; [cbn; now rewrite app_nil_r | constructor].
    + injection H as <- <-. split; [|discriminate].
      exists []. split; [cbn; now rewrite app_nil_r | constructor].
    + injection H as <- <-. split; [|discriminate].
      exists []. split; [cbn; now rewrite app_nil_r | constructor].
  - intros c1 c2 objs kvs v timeouts Hsend Hr Hlen Hobjs Hv Hchk Hfuel.
    unfold call. destruct (deadline_of timeout (clock cl)) as [finish k1].
    rewrite Hsend. cbn [fst snd] in *.
    now apply (call_loop_delivers t finish kvs v objs Hv fuel c1 _ k1 timeouts).
Qed.

End Call.

Lemma call_returns_first_return_witness :
  let cl := example_client [] in
  let c1 := snd (_send_json example_dumps 0 (command "version" [] [])
                   (Some 100%Q) (conn cl)) in
  let c2 := snd (recv_lines example_loads 0 [None; None; None] c1) in
  call example_loads example_dumps 3 0 "version" [] [] (Some 100%Q) cl
  = (Ret (JStr "ok"),
     mkClient c2 ([] ++ [N1; N2])
       (after_iterations (Some (0 + 100)%Q) (mkClock (readings example_clock) 1) 3)).
Proof.
  intros cl c1 c2.
  apply (proj2 (call_returns_first_return example_loads example_dumps 3 0
                  "version" [] [] (Some 100%Q) cl) c1 c2 [N1; N2]
           [("return"%string, JStr "ok")] (JStr "ok") [None; None; None]).
  - reflexivity.
  - reflexivity.
  - reflexivity.
  - repeat constructor.
  - reflexivity.
  - intros i Hi. destruct i as [|[|[|i]]]; [reflexivity .. | cbn in Hi; lia].
  - cbn. lia.
Defined.

(** ** Waiting for notifications *)

Section Notifications.

Variable json_loads : bytes -> option json.
Variable json_dumps : json -> bytes.

(** C5.  With a notification queued, [wait_for_notification] pops and
    returns the oldest one whatever the timeout is, and touches neither the
    connection nor the clock; with an empty queue and a strictly negative
    timeout it returns [None] and leaves the whole client, the receive
    script included, as it was. *)
Theorem wait_for_notification_poll :
  forall t c q k n x timeout,
    (x < 0)%Q ->
    wait_for_notification json_loads t timeout (mkClient c (n :: q) k)
    = (Ret n, mkClient c q k) /\
    wait_for_notification json_loads t (Some x) (mkClient c [] k)
    = (Ret JNull, mkClient c [] k).
Proof.
  intros t c q k n x timeout Hx. split; [reflexivity|].
  unfold wait_for_notification. cbn [_notifications].
  destruct (Qle_bool 0 x) eqn:E; [|reflexivity].
  apply Qle_bool_iff in E. exfalso. exact (Qlt_not_le _ _ Hx E).
Qed.

Lemma next_notifications_queue t (q : list json) :
  forall timeouts c k,
    length timeouts = length q ->
    next_notifications json_loads t timeouts (mkClient c q k)
    = (map Ret q, mkClient c [] k).
Proof.
  induction q as [|n q IH]; intros timeouts c k Hlen;
    destruct timeouts as [|tmo timeouts]; try discriminate; [reflexivity|].
  cbn [next_notifications wait_for_notification _notifications conn clock].
  rewrite IH by (cbn in Hlen; lia). reflexivity.
Qed.

End Notifications.

Lemma wait_for_notification_poll_witness :
  wait_for_notification example_loads 0 None
    (mkClient (example_conn [] []) [N1; N2] example_clock)
  = (Ret N1, mkClient (example_conn [] []) [N2] example_clock) /\
  wait_for_notification example_loads 0 (Some (-1)%Q)
    (mkClient (example_conn [] []) [] example_clock)
  = (Ret JNull, mkClient (example_conn [] []) [] example_clock).
Proof.
  apply (wait_for_notification_poll example_loads 0 (example_conn [] []) [N2]
           example_clock N1 (-1)%Q None).
  reflexivity.
Defined.

Section Fifo.

Variable json_loads : bytes -> option json.
Variable json_dumps : json -> bytes.

(** C2 (amended).  The queue is one FIFO for the whole client.  When a
    [call] that started with the notifications [_notifications cl] still
    queued receives the notifications [objs] before its response, the next
    invocations of [wait_for_notification] return first the older
    notifications and then [objs], one per invocation and in the order of
    arrival, whatever their timeouts; with an empty queue before the
    [call] these are exactly the [length objs] next invocations.  After
    them the queue is empty. *)
Theorem notifications_fifo_after_call :
  forall fuel t name args kwargs timeout cl c1 c2 objs kvs v timeouts tmos,
    _send_json json_dumps t (command name args kwargs) timeout (conn cl)
    = (Ret tt, c1) ->
    recv_lines json_loads t timeouts c1 = (map Ret (objs ++ [JObj kvs]), c2) ->
    length timeouts = S (length objs) ->
    Forall (fun o => is_object o = true /\ has_return o = false) objs ->
    assoc "return" kvs = Some v ->
    checks_pass (fst (deadline_of timeout (clock cl)))
                (snd (deadline_of timeout (clock cl))) (S (length objs)) ->
    length objs < fuel ->
    length tmos = length (_notifications cl) + length objs ->
    let cl' := snd (call json_loads json_dumps fuel t name args kwargs
                      timeout cl) in
    next_notifications json_loads t tmos cl'
    = (map Ret (_notifications cl ++ objs), mkClient c2 [] (clock cl')).
Proof.
  intros fuel t name args kwargs timeout cl c1 c2 objs kvs v timeouts tmos
         Hsend Hr Hlen Hobjs Hv Hchk Hfuel Htmos cl'.
  subst cl'. unfold call.
  destruct (deadline_of timeout (clock cl)) as [finish k1].
  rewrite Hsend. cbn [fst snd] in *.
  rewrite (call_loop_delivers json_loads t finish kvs v objs Hv fuel c1 _ k1
             timeouts c2 Hr Hlen Hobjs Hchk Hfuel).
  cbn [snd clock]. apply next_notifications_queue.
  now rewrite length_app.
Qed.

End Fifo.

Lemma notifications_fifo_after_call_witness :
  let cl := example_client [N0] in
  let cl' := snd (call example_loads example_dumps 3 0 "version" [] []
                    (Some 100%Q) cl) in
  let c1 := snd (_send_json example_dumps 0 (command "version" [] [])
                   (Some 100%Q) (conn cl)) in
  let c2 := snd (recv_lines example_loads 0 [None; None; None] c1) in
  next_notifications example_loads 0 [None; Some 0%Q; Some (-1)%Q] cl'
  = (map Ret ([N0] ++ [N1; N2]), mkClient c2 [] (clock cl')).
Proof.
  intros cl cl' c1 c2.
  apply (notifications_fifo_after_call example_loads example_dumps 3 0
           "version" [] [] (Some 100%Q) cl c1 c2 [N1; N2]
           [("return"%string, JStr "ok")] (JStr "ok") [None; None; None]).
  - reflexivity.
  - reflexivity.
  - reflexivity.
  - repeat constructor.
  - reflexivity.
  - intros i Hi. destruct i as [|[|[|i]]]; [reflexivity .. | cbn in Hi; lia].
  - cbn. lia.
  - reflexivity.
Defined.

(** C2 as stated fails when older notifications are still queued: the
    call below queues [N1] and [N2] behind [N0], and the next two
    invocations return [N0] and [N1]. *)
Lemma notifications_fifo_counterexample :
  let cl := example_client [N0] in
  let r := call example_loads example_dumps 3 0 "version" [] [] None cl in
  fst r = Ret (JStr "ok") /\
  _notifications (snd r) = [N0; N1; N2] /\
  fst (next_notifications example_loads 0 [None; None] (snd r))
  = [Ret N0; Ret N1] /\
  fst (next_notifications example_loads 0 [None; None] (snd r))
  <> map Ret [N1; N2].
Proof.
  repeat split; try reflexivity. vm_compute. discriminate.
Qed.

(** ** A deadline that passes between two receives *)

Section Deadline.

Variable json_loads : bytes -> option json.
Variable json_dumps : json -> bytes.

Lemma call_loop_expires t finish (objs : list json) :
  forall fuel c q k timeouts c2,
    recv_lines json_loads t timeouts c = (map Ret objs, c2) ->
    length timeouts = length objs ->
    Forall (fun o => is_object o = true /\ has_return o = false) objs ->
    checks_pass finish k (length objs) ->
    check_fails finish k (length objs) ->
    length objs < fuel ->
    call_loop json_loads fuel t finish c q k
    = (Ret JNull, mkClient c2 (q ++ objs) (after_failed_check k (length objs))).
Proof.
  induction objs as [|o objs IH];
    intros fuel c q k timeouts c2 Hr Hlen Hobjs Hchk Hfail Hfuel;
    (destruct fuel as [|fuel]; [cbn in Hfuel; lia|]).
  - destruct timeouts; [|discriminate]. cbn [recv_lines map] in Hr.
    injection Hr as <-. destruct finish as [f|]; [|destruct Hfail].
    cbn [check_fails length] in Hfail.
    change (2 * 0 + ticks k) with (ticks k) in Hfail.
    cbn [call_loop before_deadline time_time]. rewrite Hfail.
    now rewrite app_nil_r.
  - destruct timeouts as [|tmo timeouts]; [discriminate|].
    cbn [map] in Hr.
    apply recv_lines_cons_inv in Hr as (c1 & Hrecv & Hrest).
    rewrite (recv_json_timeout_irrelevant _ _ tmo None) in Hrecv.
    cbn [length] in Hchk.
    rewrite (call_loop_iteration _ _ _ _ _ _ _ _ Hchk). cbv zeta.
    rewrite Hrecv.
    inversion Hobjs as [|? ? [Ho Hn] Hobjs']; subst.
    rewrite (py_in_object _ Ho), Hn.
    rewrite (IH fuel c1 (q ++ [o]) _ timeouts c2 Hrest).
    + rewrite <- app_assoc. cbn [app]. f_equal. f_equal.
      destruct finish as [f|]; [|destruct Hfail].
      unfold after_failed_check. cbn [after_iterations readings ticks length].
      f_equal. lia.
    + cbn in Hlen. lia.
    + assumption.
    + now apply checks_pass_tail.
    + destruct finish as [f|]; [|destruct Hfail].
      cbn [check_fails after_iterations readings ticks length] in *.
      replace (2 * length objs + (2 * 1 + ticks k))
        with (2 * S (length objs) + ticks k) by lia.
      exact Hfail.
    + cbn in Hfuel. lia.
Qed.

(** C4 (what the code does).  When the deadline is found passed at a check
    of the receive loop, after the notifications [objs] and before any
    line with a ["return"] key, [call] leaves the loop and returns [None]:
    it completes normally, without a response value and without raising
    [ProtocolTimeoutError]. *)
Theorem call_returns_none_after_deadline :
  forall fuel t name args kwargs timeout cl c1 c2 objs timeouts,
    _send_json json_dumps t (command name args kwargs) timeout (conn cl)
    = (Ret tt, c1) ->
    recv_lines json_loads t timeouts c1 = (map Ret objs, c2) ->
    length timeouts = length objs ->
    Forall (fun o => is_object o = true /\ has_return o = false) objs ->
    checks_pass (fst (deadline_of timeout (clock cl)))
                (snd (deadline_of timeout (clock cl))) (length objs) ->
    check_fails (fst (deadline_of timeout (clock cl)))
                (snd (deadline_of timeout (clock cl))) (length objs) ->
    length objs < fuel ->
    call json_loads json_dumps fuel t name args kwargs timeout cl
    = (Ret JNull,
       mkClient c2 (_notifications cl ++ objs)
         (after_failed_check (snd (deadline_of timeout (clock cl)))
            (length objs))).
Proof.
  intros fuel t name args kwargs timeout cl c1 c2 objs timeouts
         Hsend Hr Hlen Hobjs Hchk Hfail Hfuel.
  unfold call. destruct (deadline_of timeout (clock cl)) as [finish k1].
  rewrite Hsend. cbn [fst snd] in *.
  now apply (call_loop_expires t finish objs fuel c1 _ k1 timeouts).
Qed.

End Deadline.

Lemma call_returns_none_after_deadline_witness :
  let c1 := snd (_send_json example_dumps 0 (command "version" [] [])
                   (Some 2%Q) (conn late_client)) in
  let c2 := snd (recv_lines example_loads 0 [None] c1) in
  call example_loads example_dumps 2 0 "version" [] [] (Some 2%Q) late_client
  = (Ret JNull,
     mkClient c2 ([] ++ [N1])
       (after_failed_check (mkClock (readings example_clock) 1) 1)) /\
  recvs c2 = [Data (unlines [bytes_of "Rok"])].
Proof.
  intros c1 c2. split; [|reflexivity].
  apply (call_returns_none_after_deadline example_loads example_dumps 2 0
           "version" [] [] (Some 2%Q) late_client c1 c2 [N1] [None]).
  - reflexivity.
  - reflexivity.
  - reflexivity.
  - repeat constructor.
  - intros i Hi. destruct i as [|i]; [reflexivity | cbn in Hi; lia].
  - reflexivity.
  - cbn. lia.
Defined.

(** ** The nesting of [_get_connection] and [_connect] *)

Lemma get_connection_found d t tmo c :
  _dead c = true \/ is_Some (_socks c !! t) ->
  get_connection_at (S d) t tmo c = get_connection_at 1 t tmo c.
Proof.
  intros H. cbn [get_connection_at]. destruct (_dead c); [reflexivity|].
  destruct H as [H|[s H]]; [discriminate|]. now rewrite H.
Qed.

Lemma connect_found d t tmo c :
  _dead c = true \/ is_Some (_socks c !! t) ->
  connect_at (S (S d)) t tmo c = connect_at 2 t tmo c.
Proof.
  intros H. cbn [connect_at]. now rewrite (get_connection_found d).
Qed.

(** Three frames are enough for [_get_connection] and four for
    [_connect]: more depth changes nothing, so that the models never run
    out of it. *)
Lemma get_connection_depth d t tmo c :
  get_connection_at (3 + d) t tmo c = _get_connection t tmo c.
Proof.
  unfold _get_connection. cbn [Nat.add get_connection_at].
  destruct (_dead c); [reflexivity|].
  destruct (_socks c !! t); [reflexivity|].
  rewrite (connect_found d); [reflexivity|].
  right. cbn [set_local set_next_sock set_socks _socks].
  rewrite lookup_insert_eq. now eexists.
Qed.

Lemma connect_depth d t tmo c :
  connect_at (4 + d) t tmo c = _connect t tmo c.
Proof.
  unfold _connect. cbn [Nat.add connect_at].
  change (get_connection_at (S (S (S d)))) with (get_connection_at (3 + d)).
  now rewrite (get_connection_depth d).
Qed.

(** ** Closing the connection manager *)

Lemma close_one_socks t key c :
  _socks (_close t key c) = delete key (_socks c).
Proof.
  unfold _close. destruct (_socks c !! key) eqn:E.
  - destruct (Nat.eqb key t); reflexivity.
  - symmetry. now apply delete_id.
Qed.

Lemma close_one_dead t key c : _dead (_close t key c) = _dead c.
Proof.
  unfold _close. destruct (_socks c !! key); [|reflexivity].
  destruct (Nat.eqb key t); reflexivity.
Qed.

Lemma close_one_next_sock t key c : next_sock (_close t key c) = next_sock c.
Proof.
  unfold _close. destruct (_socks c !! key); [|reflexivity].
  destruct (Nat.eqb key t); reflexivity.
Qed.

Lemma close_one_closed t key c :
  closed c ⊆ closed (_close t key c) /\
  (forall s, _socks c !! key = Some s -> s ∈ closed (_close t key c)).
Proof.
  unfold _close. destruct (_socks c !! key) as [s0|] eqn:E.
  - destruct (Nat.eqb key t); cbn; split; try set_solver;
      intros s [= ->]; set_solver.
  - split; [reflexivity | discriminate].
Qed.

Lemma close_all t (keys : list thread) :
  forall c,
    let c' := foldl (fun acc key => _close t key acc) c keys in
    _dead c' = _dead c /\ next_sock c' = next_sock c /\
    closed c ⊆ closed c' /\
    (forall k, k ∈ keys -> _socks c' !! k = None) /\
    (forall k, _socks c !! k = None -> _socks c' !! k = None) /\
    (forall k s, k ∈ keys -> _socks c !! k = Some s -> s ∈ closed c').
Proof.
  induction keys as [|key keys IH]; intros c; cbn [foldl].
  - repeat split; try reflexivity; try (intros k Hk; now apply elem_of_nil in Hk).
    + auto.
    + intros k s Hk. now apply elem_of_nil in Hk.
  - destruct (IH (_close t key c)) as (Hd & Hn & Hcl & Hin & Hout & Hs).
    destruct (close_one_closed t key c) as [Hsub Hkey].
    repeat split.
    + now rewrite Hd, close_one_dead.
    + now rewrite Hn, close_one_next_sock.
    + now transitivity (closed (_close t key c)).
    + intros k Hk. apply elem_of_cons in Hk as [->|Hk]; [|now apply Hin].
      apply Hout. rewrite close_one_socks. apply lookup_delete_eq.
    + intros k Hk. apply Hout. rewrite close_one_socks.
      rewrite lookup_delete. now case_decide.
    + intros k s Hk Hks. destruct (decide (k = key)) as [->|Hne].
      * apply Hcl. now apply Hkey.
      * apply elem_of_cons in Hk as [->|Hk]; [congruence|].
        apply (Hs k s Hk). rewrite close_one_socks.
        now rewrite lookup_delete_ne.
Qed.

Lemma close_spec t c :
  _dead (close t c) = true /\ _socks (close t c) = ∅ /\
  _local (close t c) = ∅ /\ next_sock (close t c) = next_sock c /\
  (forall key s, _socks c !! key = Some s -> s ∈ closed (close t c)).
Proof.
  unfold close.
  destruct (close_all t (map_to_list (_socks (set_dead true c))).*1
              (set_dead true c)) as (Hd & Hn & _ & Hin & Hout & Hs).
  cbv zeta in *. repeat split; cbn [set_local _dead _socks _local next_sock closed].
  - exact Hd.
  - apply map_empty. intros k.
    destruct (_socks c !! k) as [s|] eqn:E; [apply Hin | now apply Hout].
    apply list_elem_of_fmap. exists (k, s). split; [reflexivity|].
    now apply elem_of_map_to_list.
  - exact Hn.
  - intros key s Hks. apply (Hs key s); [|exact Hks].
    apply list_elem_of_fmap. exists (key, s). split; [reflexivity|].
    now apply elem_of_map_to_list.
Qed.

Lemma get_connection_dead t tmo c :
  _dead c = true -> _get_connection t tmo c = (Ret None, c).
Proof. intros H. unfold _get_connection. cbn [get_connection_at]. now rewrite H. Qed.

(** While the manager is dead and tracks no socket, every operation other
    than [connect] leaves it so, and allocates no socket. *)
Lemma run_op_dead loads dumps op c :
  _dead c = true -> _socks c = ∅ ->
  let c' := run_op loads dumps c op in
  _dead c' = true /\ _socks c' = ∅ /\ next_sock c' = next_sock c.
Proof.
  intros Hd Hs. destruct op as [t tmo|t key|t|t tmo|t obj tmo]; cbn [run_op].
  - now rewrite (get_connection_dead _ _ _ Hd).
  - unfold _close. rewrite Hs, lookup_empty. auto.
  - destruct (close_spec t c) as (H1 & H2 & _ & H3 & _). auto.
  - unfold _recv_json. rewrite (get_connection_dead _ _ _ Hd).
    destruct (_local c !! t) as [l|]; [|auto].
    destruct (recv_loop None (l_buffer l) (recvs c)) as [[o buf] script].
    destruct o; try (cbn; auto).
    destruct (partition_nl buf) as [line rest].
    destruct (loads line); cbn; auto.
  - unfold _send_json. rewrite (get_connection_dead _ _ _ Hd). auto.
Qed.

Lemma run_ops_dead loads dumps (ops : list manager_op) :
  forall c,
    _dead c = true -> _socks c = ∅ ->
    let c' := foldl (run_op loads dumps) c ops in
    _dead c' = true /\ _socks c' = ∅ /\ next_sock c' = next_sock c.
Proof.
  induction ops as [|op ops IH]; intros c Hd Hs; cbn [foldl]; [auto|].
  destruct (run_op_dead loads dumps op c Hd Hs) as (Hd1 & Hs1 & Hn1).
  destruct (IH _ Hd1 Hs1) as (Hd2 & Hs2 & Hn2).
  cbv zeta in *. rewrite Hn2, Hn1. auto.
Qed.

(** C9.  [close()] sets the dead flag, empties the table of connections
    and closes every socket the table tracked, for every thread.  From
    then on, across any sequence [ops] of operations of the manager other
    than [connect] (the only operation that clears the flag), the flag
    stays set, the table stays empty, no socket is created, and
    [_get_connection] returns [None] to every thread without changing the
    state. *)
Theorem close_refuses_connections :
  forall loads dumps t c (ops : list manager_op),
    let c1 := close t c in
    let c2 := foldl (run_op loads dumps) c1 ops in
    (_dead c1 = true /\ _socks c1 = ∅ /\
     forall key s, _socks c !! key = Some s -> s ∈ closed c1) /\
    (_dead c2 = true /\ _socks c2 = ∅ /\ next_sock c2 = next_sock c /\
     forall t' tmo, _get_connection t' tmo c2 = (Ret None, c2)).
Proof.
  intros loads dumps t c ops c1 c2.
  destruct (close_spec t c) as (Hd & Hs & _ & Hn & Hcl).
  destruct (run_ops_dead loads dumps ops c1 Hd Hs) as (Hd2 & Hs2 & Hn2).
  fold c2 in Hd2, Hs2, Hn2. repeat split; try assumption.
  - now rewrite Hn2.
  - intros t' tmo. now apply get_connection_dead.
Qed.

(** [connect()] clears the dead flag once it is past its test of the
    thread-local socket, whether the connection then succeeds or not. *)
Lemma connect_clears_dead t tmo c :
  is_Some (_local c !! t) -> _dead (snd (connect t tmo c)) = false.
Proof.
  intros [l Hl]. unfold connect. rewrite Hl.
  set (c1 := match l_sock l with Some _ => _close t t c | None => c end).
  unfold _connect. cbn [connect_at get_connection_at set_dead _dead _socks].
  destruct (_socks c1 !! t) as [s|].
  - unfold sock_connect. cbn. destruct (connects c1) as [|[] rest]; cbn;
      try reflexivity.
    unfold _close. cbn. destruct (_socks c1 !! t); cbn; [|reflexivity].
    rewrite Nat.eqb_refl. reflexivity.
  - cbn. rewrite lookup_insert_eq. unfold sock_connect. cbn.
    destruct (connects c1) as [|[] rest]; cbn; try reflexivity.
    + destruct rest as [|[] rest]; cbn; try reflexivity.
      unfold _close. cbn. rewrite lookup_insert_eq. cbn.
      rewrite Nat.eqb_refl. reflexivity.
    + unfold _close. cbn. rewrite lookup_insert_eq. cbn.
      rewrite Nat.eqb_refl. cbn. rewrite lookup_delete_eq. reflexivity.
Qed.

(** In this version of the client [close()] replaces the thread-local
    object by a fresh one, whose attributes are unset: a [connect()] that
    follows fails on reading [self._local.sock], before it clears the
    flag. *)
Lemma connect_after_close t t' tmo c :
  connect t' tmo (close t c) = (Raise AttributeError, close t c).
Proof.
  destruct (close_spec t c) as (_ & _ & Hl & _).
  unfold connect. now rewrite Hl, lookup_empty.
Qed.

Lemma close_refuses_connections_witness :
  let ops := [Op_get_connection 0 None; Op_recv_json 1 (Some 1%Q);
              Op_send_json 0 JNull None; Op_close_one 1 0] in
  let c2 := foldl (run_op example_loads example_dumps) (close 0 two_conns) ops in
  7 ∈ closed (close 0 two_conns) /\ 8 ∈ closed (close 0 two_conns) /\
  _get_connection 1 None c2 = (Ret None, c2).
Proof.
  intros ops c2.
  destruct (close_refuses_connections example_loads example_dumps 0 two_conns
              ops) as [(_ & _ & Hclosed) (_ & _ & _ & Hget)].
  split; [|split].
  - apply (Hclosed 0 7). reflexivity.
  - apply (Hclosed 1 8). reflexivity.
  - apply Hget.
Defined.

(** ** The version gate *)

Lemma tuple_ltb_spec (a : list Z) : forall b, tuple_ltb a b = true <-> lex_lt a b.
Proof.
  induction a as [|x a IH]; intros [|y b]; cbn [tuple_ltb].
  - split; [discriminate | inversion 1].
  - split; [constructor | reflexivity].
  - split; [discriminate | inversion 1].
  - destruct (Z.eqb_spec x y) as [->|Hne].
    + rewrite IH. split; [now constructor|].
      inversion 1; subst; [lia | assumption].
    + rewrite Z.ltb_lt. split; [now constructor|].
      inversion 1; subst; [assumption | congruence].
Qed.

Lemma tuple_leb_spec (a : list Z) : forall b, tuple_leb a b = true <-> lex_le a b.
Proof.
  unfold lex_le. induction a as [|x a IH]; intros [|y b]; cbn [tuple_leb].
  - split; auto.
  - split; [right; constructor | reflexivity].
  - split; [discriminate | intros [H|H]; [discriminate | inversion H]].
  - destruct (Z.eqb_spec x y) as [->|Hne].
    + rewrite IH. split.
      * intros [->|H]; [now left | right; now constructor].
      * intros [[= ->]|H]; [now left|].
        inversion H; subst; [lia | now right].
    + rewrite Z.leb_le. split.
      * intros H. right. constructor. lia.
      * intros [[= -> ->]|H]; [congruence|].
        inversion H; subst; [lia | congruence].
Qed.

Lemma compatible_spec (v_ints : list Z) :
  compatible v_ints = true <-> supported_version v_ints.
Proof.
  unfold compatible, supported_version.
  now rewrite andb_true_iff, tuple_leb_spec, tuple_ltb_spec.
Qed.

Section VersionGate.

Context {W : Type} (ops : ClientOps W).
Variable py_int : string -> option Z.
Variable self : Job.

(** C3.  When the server reports the version string [v], the check
    accepts it if and only if the tuple of its first three integer
    components lies in the range [(0,0,2) <= v < (2,0,0)] of the
    lexicographic order, and otherwise it fails with the [ValueError] that
    reports the incompatible version (or the one of [int] on a component
    that is not a number).  In particular 0.0.1 and 2.0.0 are rejected and
    0.2.0 and 1.9.9 are accepted. *)
Theorem version_gate :
  forall (w w1 : W) (v : string),
    cl_version ops (_timeout self) w = (Ret (JStr v), w1) ->
    py_int "0" = Some 0%Z -> py_int "1" = Some 1%Z ->
    py_int "2" = Some 2%Z -> py_int "9" = Some 9%Z ->
    let result := fst (_assert_compatible_version ops py_int self w) in
    (result = Ret tt <->
     exists v_ints, version_ints py_int v = Some v_ints /\
                    supported_version v_ints) /\
    (result <> Ret tt -> result = Raise ValueError) /\
    (v = "0.0.1"%string \/ v = "2.0.0"%string -> result = Raise ValueError) /\
    (v = "0.2.0"%string \/ v = "1.9.9"%string -> result = Ret tt).
Proof.
  intros w w1 v Hv H0 H1 H2 H9 result.
  assert (Hres : result = match version_ints py_int v with
                          | None => Raise ValueError
                          | Some v_ints => if compatible v_ints then Ret tt
                                           else Raise ValueError
                          end).
  { subst result. unfold _assert_compatible_version. rewrite Hv.
    destruct (version_ints py_int v) as [v_ints|]; [|reflexivity].
    destruct (compatible v_ints); reflexivity. }
  repeat split.
  - rewrite Hres. destruct (version_ints py_int v) as [v_ints|]; [|discriminate].
    destruct (compatible v_ints) eqn:E; [|discriminate].
    intros _. exists v_ints. split; [reflexivity | now apply compatible_spec].
  - intros (v_ints & Hi & Hs). rewrite Hres, Hi.
    apply compatible_spec in Hs. now rewrite Hs.
  - rewrite Hres. destruct (version_ints py_int v) as [v_ints|]; [|reflexivity].
    destruct (compatible v_ints); [congruence | reflexivity].
  - rewrite Hres. intros [->| ->]; unfold version_ints; cbn; now rewrite ?H0, ?H1, ?H2.
  - rewrite Hres. intros [->| ->]; unfold version_ints; cbn; now rewrite ?H0, ?H1, ?H2, ?H9.
Qed.

End VersionGate.

Lemma version_gate_witness :
  fst (_assert_compatible_version example_ops decimal_int example_job
         (example_world [Data (unlines [bytes_of "R1.9.9"])]))
  = Ret tt.
Proof.
  refine (proj2 (proj2 (proj2
            (version_gate example_ops decimal_int example_job
               (example_world [Data (unlines [bytes_of "R1.9.9"])])
               (snd (cl_version example_ops (Some 5%Q)
                       (example_world [Data (unlines [bytes_of "R1.9.9"])])))
               "1.9.9" _ _ _ _ _))) _);
    try reflexivity.
  now right.
Defined.

(** ** Destroying a job *)

Section Destroy.

Context {W : Type} (ops : ClientOps W).
Variable self : Job.
Variable sentinel_exit : W -> W.

(** C8.  For a job whose keepalive thread was started, whether the
    [destroy_job] request succeeds, times out or fails on the transport,
    [destroy] returns normally.  It has then set the stop event and joined
    the keepalive thread; the request was made on the world [w0] that the
    joined thread left; a failure of the request is only logged as a
    warning; and [close()] of the client is the last thing done, in every
    one of the three cases. *)
Theorem destroy_never_raises_on_communication_failure :
  forall (reason : json) (r : Runtime) (o : outcome json) (w1 : W),
    _keepalive_thread r <> NotStarted ->
    let w0 := match _keepalive_thread r with
              | Running => sentinel_exit (world r)
              | _ => world r
              end in
    cl_destroy_job ops (id self) reason None w0 = (o, w1) ->
    (exists v, o = Ret v) \/ o = Raise ProtocolTimeoutError \/ o = Raise OSError ->
    let w2 := match o with
              | Raise e =>
                  env_log ops (LogWarning "Could not destroy job: %s" e) w1
              | _ => w1
              end in
    destroy ops self sentinel_exit reason r
    = (Ret tt, mkRuntime (cl_close ops w2) true Joined).
Proof.
  intros reason r o w1 Hstarted w0 Hreq Ho w2.
  unfold destroy. subst w0 w2.
  destruct (_keepalive_thread r); [congruence | |];
    rewrite Hreq; destruct Ho as [[v ->]|[-> | ->]]; reflexivity.
Qed.

End Destroy.

Lemma destroy_never_raises_on_communication_failure_witness :
  let r := mkRuntime broken_world false Running in
  let res := destroy example_ops example_job (fun w => w) JNull r in
  fst res = Ret tt /\
  _stop (snd res) = true /\ _keepalive_thread (snd res) = Joined /\
  logged (world (snd res)) = [LogWarning "Could not destroy job: %s" OSError] /\
  _dead (conn (client (world (snd res)))) = true /\
  _socks (conn (client (world (snd res)))) = ∅ /\
  7 ∈ closed (conn (client (world (snd res)))).
Proof.
  intros r res. subst res.
  rewrite (destroy_never_raises_on_communication_failure example_ops
             example_job (fun w => w) JNull r (Raise OSError)
             (snd (cl_destroy_job example_ops (JInt 12) JNull None broken_world))).
  - repeat split; reflexivity.
  - discriminate.
  - reflexivity.
  - right. now right.
Defined.

(** ** Waiting for a change of state *)

Lemma JobState_eqb_spec (a b : JobState) : reflect (a = b) (JobState_eqb a b).
Proof. destruct a, b; constructor; congruence. Qed.

Lemma Qltb_false_of_le (now f : Q) : (f <= now)%Q -> Qltb now f = false.
Proof.
  intros H. unfold Qltb. apply Qle_bool_iff in H. now rewrite H.
Qed.

Lemma Qltb_false_le (now f : Q) : Qltb now f = false -> (f <= now)%Q.
Proof.
  unfold Qltb. intros H. apply negb_false_iff in H. now apply Qle_bool_iff.
Qed.

Lemma Qltb_true_lt (now f : Q) : Qltb now f = true -> (now < f)%Q.
Proof.
  unfold Qltb. intros H. apply negb_true_iff in H.
  apply Qnot_le_lt. intros Hle. apply Qle_bool_iff in Hle. congruence.
Qed.

Section WaitSound.

Context {W : Type} (ops : ClientOps W).
Variable JobState_of : json -> option JobState.
Variable py_int : string -> option Z.
Variable self : Job.
Variable old_state : JobState.



End WaitSound.

Section WaitLive.

Context {W : Type} (ops : ClientOps W).
Variable JobState_of : json -> option JobState.
Variable py_int : string -> option Z.
Variable self : Job.
Variable old_state : JobState.
Variable clk : W -> Clock.
Variable Inv : W -> Prop.
Hypothesis Hhealthy : healthy ops JobState_of self clk Inv.

(** The deadline [f] is reached from the reading [N] of the clock [rd]
    on. *)
Variable rd : nat -> Q.
Variable f : Q.
Variable N : nat.
Hypothesis Hreach : forall n, N <= n -> (f <= rd n)%Q.

Lemma on_clock_advances w w' :
  on_clock clk Inv rd w -> Inv w' -> advances clk w w' ->
  on_clock clk Inv rd w' /\ ticks (clk w) <= ticks (clk w').
Proof.
  intros [_ Hrd] Hinv [Hr Ht]. repeat split; try assumption. congruence.
Qed.

Lemma time_remains_healthy w :
  on_clock clk Inv rd w ->
  exists w1, time_remains ops (Some f) w = (Qltb (rd (ticks (clk w))) f, w1) /\
             on_clock clk Inv rd w1 /\ ticks (clk w1) = S (ticks (clk w)).
Proof.
  intros [Hinv Hrd].
  destruct (h_time _ _ _ _ _ Hhealthy w Hinv) as (w1 & E & Hinv1 & Hr1 & Ht1).
  exists w1. cbn [time_remains]. rewrite E, Hrd.
  repeat split; try assumption. congruence.
Qed.

Lemma time_remains_before w :
  Qltb (rd (ticks (clk w))) f = true -> ticks (clk w) < N.
Proof.
  intros Hgo. destruct (le_lt_dec N (ticks (clk w))) as [Hle|Hlt]; [|exact Hlt].
  rewrite (Qltb_false_of_le _ _ (Hreach _ Hle)) in Hgo. discriminate.
Qed.

Lemma wait_timeout_healthy w :
  on_clock clk Inv rd w ->
  exists x w1, wait_timeout_of ops self (Some f) w = (Ret x, w1) /\
               on_clock clk Inv rd w1 /\ ticks (clk w1) = S (ticks (clk w)).
Proof.
  intros [Hinv Hrd].
  destruct (h_time _ _ _ _ _ Hhealthy w Hinv) as (w1 & E & Hinv1 & Hr1 & Ht1).
  assert (Hc : on_clock clk Inv rd w1) by (split; congruence).
  unfold wait_timeout_of. rewrite E.
  destruct (_keepalive self) as [ka|]; eexists _, w1; repeat split;
    solve [apply Hc | assumption].
Qed.

Lemma keepalive_wait_live (m : nat) :
  forall fuel w,
    on_clock clk Inv rd w -> N - ticks (clk w) <= m -> m < fuel ->
    exists b w', keepalive_wait ops self fuel (Some f) w = (Ret b, w') /\
                 on_clock clk Inv rd w' /\ ticks (clk w) < ticks (clk w').
Proof.
  induction m as [|m IH]; intros fuel w Hw Hm Hfuel;
    (destruct fuel as [|fuel]; [lia|]); cbn [keepalive_wait];
    destruct (time_remains_healthy w Hw) as (w1 & E1 & Hw1 & T1);
    rewrite E1; destruct (Qltb (rd (ticks (clk w))) f) eqn:Hgo;
    try (exists false, w1; repeat split; [apply Hw1 .. | lia]).
  - apply time_remains_before in Hgo. lia.
  - apply time_remains_before in Hgo.
    destruct (h_keepalive _ _ _ _ _ Hhealthy w1 (proj1 Hw1))
      as (v & w2 & E2 & Hinv2 & A2).
    destruct (on_clock_advances _ _ Hw1 Hinv2 A2) as [Hw2 T2].
    destruct (wait_timeout_healthy w2 Hw2) as (x & w3 & E3 & Hw3 & T3).
    rewrite E2, E3.
    destruct (Qle_bool 0 x).
    + destruct (h_wait _ _ _ _ _ Hhealthy (Some x) w3 (proj1 Hw3))
        as (o & w4 & E4 & Hinv4 & A4 & Ho).
      destruct (on_clock_advances _ _ Hw3 Hinv4 A4) as [Hw4 T4].
      rewrite E4. destruct Ho as [[v' ->]| ->].
      * exists true, w4. repeat split; [apply Hw4 .. | lia].
      * cbn [is_timeout].
        destruct (IH fuel w4 Hw4 ltac:(lia) ltac:(lia)) as (b & w' & E & Hw' & T').
        exists b, w'. repeat split; [assumption | apply Hw' .. | lia].
    + destruct (IH fuel w3 Hw3 ltac:(lia) ltac:(lia)) as (b & w' & E & Hw' & T').
      exists b, w'. repeat split; [assumption | apply Hw' .. | lia].
Qed.

Lemma poll_loop_live (m : nat) :
  forall fuel w,
    on_clock clk Inv rd w -> N - ticks (clk w) <= m -> m < fuel ->
    exists r w',
      poll_loop ops JobState_of self fuel (Some f) old_state w = (Ret r, w') /\
      on_clock clk Inv rd w' /\ ticks (clk w) < ticks (clk w') /\
      forall s, r = Some s ->
                state_observed ops JobState_of self Inv old_state s w'.
Proof.
  induction m as [|m IH]; intros fuel w Hw Hm Hfuel;
    (destruct fuel as [|fuel]; [lia|]); cbn [poll_loop];
    destruct (time_remains_healthy w Hw) as (w1 & E1 & Hw1 & T1);
    rewrite E1; destruct (Qltb (rd (ticks (clk w))) f) eqn:Hgo;
    try (exists None, w1; repeat split; [apply Hw1 .. | lia | discriminate]).
  - apply time_remains_before in Hgo. lia.
  - apply time_remains_before in Hgo.
    destruct (h_poll _ _ _ _ _ Hhealthy w1 (proj1 Hw1))
      as (tup & w2 & E2 & Hinv2 & A2).
    destruct (on_clock_advances _ _ Hw1 Hinv2 A2) as [Hw2 T2].
    rewrite E2.
    destruct (JobState_eqb_spec (js_state tup) old_state) as [Heq|Hne];
      cbn [negb].
    + destruct (keepalive_wait_live m fuel w2 Hw2 ltac:(lia) ltac:(lia))
        as (b & w3 & E3 & Hw3 & T3).
      rewrite E3. destruct b.
      * destruct (IH fuel w3 Hw3 ltac:(lia) ltac:(lia))
          as (r & w' & E & Hw' & T' & Hobs).
        exists r, w'. repeat split; [assumption | apply Hw' .. | lia | assumption].
      * exists (Some old_state), w3.
        repeat split; [apply Hw3 .. | lia |].
        intros s [= <-]. now left.
    + exists (Some (js_state tup)), w2.
      repeat split; [apply Hw2 .. | lia |].
      intros s [= <-]. right. split; [assumption|].
      exists w1, tup. repeat split; [apply Hw1 | assumption].
Qed.

Lemma listen_loop_live (m : nat) :
  forall fuel w,
    on_clock clk Inv rd w -> N - ticks (clk w) <= m -> m < fuel ->
    exists s w',
      listen_loop ops JobState_of py_int self fuel (Some f) old_state w
      = (Ret s, w') /\
      on_clock clk Inv rd w' /\ ticks (clk w) < ticks (clk w') /\
      state_observed ops JobState_of self Inv old_state s w'.
Proof.
  induction m as [|m IH]; intros fuel w Hw Hm Hfuel;
    (destruct fuel as [|fuel]; [lia|]); cbn [listen_loop];
    destruct (time_remains_healthy w Hw) as (w1 & E1 & Hw1 & T1);
    rewrite E1; destruct (Qltb (rd (ticks (clk w))) f) eqn:Hgo;
    try (exists old_state, w1; repeat split; [apply Hw1 .. | lia | now left]).
  - apply time_remains_before in Hgo. lia.
  - apply time_remains_before in Hgo.
    destruct (h_notify _ _ _ _ _ Hhealthy w1 (proj1 Hw1))
      as (v & w2 & E2 & Hinv2 & A2).
    destruct (on_clock_advances _ _ Hw1 Hinv2 A2) as [Hw2 T2].
    cbv zeta. rewrite E2.
    destruct (poll_loop_live m fuel w2 Hw2 ltac:(lia) ltac:(lia))
      as (r & w3 & E3 & Hw3 & T3 & Hobs).
    rewrite E3. destruct r as [s|].
    + exists s, w3. repeat split; [apply Hw3 .. | lia | now apply Hobs].
    + destruct (IH fuel w3 Hw3 ltac:(lia) ltac:(lia))
        as (s & w' & E & Hw' & T' & Hobs').
      exists s, w'. repeat split; [assumption | apply Hw' .. | lia | assumption].
Qed.

End WaitLive.

Section WaitTerminates.

Context {W : Type} (ops : ClientOps W).
Variable JobState_of : json -> option JobState.
Variable py_int : string -> option Z.
Variable self : Job.

(** With a server that keeps answering and a clock that reaches the
    deadline, the call with the timeout [T] returns normally, and it
    returns [old_state] when no poll reports another state. *)
Theorem wait_for_state_change_terminates :
  forall (clk : W -> Clock) (Inv : W -> Prop) (old_state : JobState)
         (T : Q) (w0 : W),
    healthy ops JobState_of self clk Inv ->
    Inv w0 ->
    unbounded (clk w0) ->
    (exists fuel0, forall fuel, fuel0 <= fuel ->
        exists s w',
          wait_for_state_change ops JobState_of py_int self fuel old_state
            (Some T) w0 = (Ret s, w') /\
          Inv w' /\ state_observed ops JobState_of self Inv old_state s w') /\
    ((forall w tup w', Inv w ->
         get_state ops JobState_of self w = (Ret tup, w') ->
         js_state tup = old_state) ->
     exists fuel0, forall fuel, fuel0 <= fuel ->
        exists w',
          wait_for_state_change ops JobState_of py_int self fuel old_state
            (Some T) w0 = (Ret old_state, w')).
Proof.
  intros clk Inv old_state T w0 Hh Hinv0 Hclock.
  assert (Hlive : exists fuel0, forall fuel, fuel0 <= fuel ->
            exists s w',
              wait_for_state_change ops JobState_of py_int self fuel old_state
                (Some T) w0 = (Ret s, w') /\
              Inv w' /\ state_observed ops JobState_of self Inv old_state s w').
  { destruct (h_time _ _ _ _ _ Hh w0 Hinv0) as (w1 & E & Hinv1 & Hr1 & Ht1).
    set (f := (readings (clk w0) (ticks (clk w0)) + T)%Q).
    destruct (Hclock f) as [N HN].
    exists (S (N - ticks (clk w1))). intros fuel Hfuel.
    assert (Hw1 : on_clock clk Inv (readings (clk w0)) w1) by now split.
    destruct (listen_loop_live ops JobState_of py_int self old_state clk Inv
                Hh (readings (clk w0)) f N HN (N - ticks (clk w1)) fuel w1
                Hw1 ltac:(lia) ltac:(lia))
      as (s & w' & El & Hw' & _ & Hobs).
    exists s, w'. unfold wait_for_state_change. cbn [finish_time_of].
    rewrite E. fold f. repeat split; [assumption | apply Hw' | assumption]. }
  split.
  - exact Hlive.
  - intros Hsame. destruct Hlive as [fuel0 Hlive]. exists fuel0.
    intros fuel Hfuel.
    destruct (Hlive fuel Hfuel) as (s & w' & E & _ & [-> | [Hne Hobs]]).
    + now exists w'.
    + destruct Hobs as (w1 & tup & Hinv1 & Hg & Hs).
      rewrite (Hsame w1 tup w' Hinv1 Hg) in Hs. congruence.
Qed.

End WaitTerminates.

(** ** The simulated server of the examples *)

Lemma example_clock_unbounded (start : nat) :
  unbounded (mkClock (readings example_clock) start).
Proof.
  intros x. exists (Z.to_nat (Qceiling x)). intros n Hn. cbn [readings example_clock].
  apply Qle_trans with (inject_Z (Qceiling x)); [apply Qle_ceiling|].
  rewrite <- Zle_Qle. lia.
Qed.

Lemma quiet_server_healthy (n : Z) (js : JobState) (self : Job) :
  example_JobState_of (JInt n) = Some js ->
  healthy (quiet_server n) example_JobState_of self (fun k => k) (fun _ => True).
Proof.
  intros Hn. constructor.
  - intros k _. exists (snd (time_time k)). repeat split.
  - intros e k _. repeat split. reflexivity.
  - intros k _. exists JNull, k. repeat split. reflexivity.
  - intros k _. exists JNull, k. repeat split. reflexivity.
  - intros k _. exists (mkJobStateTuple js JNull (JFloat 60) (JStr "gone")), k.
    unfold get_state, job_state_tuple. cbn [cl_get_job_state quiet_server].
    cbn. rewrite Hn. repeat split. reflexivity.
  - intros tmo k _. exists (Raise ProtocolTimeoutError), k.
    repeat split; [reflexivity | now right].
Qed.

Example quiet_wait_terminates :
  exists fuel0, forall fuel, fuel0 <= fuel ->
    exists w',
      wait_for_state_change (quiet_server 1) example_JobState_of decimal_int
        example_job fuel queued (Some 3%Q) example_clock = (Ret queued, w').
Proof.
  refine (proj2
            (wait_for_state_change_terminates (quiet_server 1)
               example_JobState_of decimal_int example_job (fun k => k)
               (fun _ => True) queued 3%Q example_clock _ I _) _).
  - apply (quiet_server_healthy 1 queued). reflexivity.
  - apply (example_clock_unbounded 0).
  - intros k tup k' _ H. unfold get_state in H. cbn in H.
    injection H as <- _. reflexivity.
Qed.

(** ** Enough fuel *)


Lemma reraise_not_ret {A B : Type} (o : outcome A) (b : B) :
  reraise o <> Ret b.
Proof. destruct o; discriminate. Qed.

Section Fuel.

Context {W : Type} (ops : ClientOps W).
Variable JobState_of : json -> option JobState.
Variable py_int : string -> option Z.
Variable self : Job.

(** A loop that ended with some fuel ends in the same way with more. *)
Lemma keepalive_wait_fuel fuel :
  forall fuel' finish w o w',
    keepalive_wait ops self fuel finish w = (o, w') -> o <> OutOfFuel ->
    fuel <= fuel' ->
    keepalive_wait ops self fuel' finish w = (o, w').
Proof.
  induction fuel as [|fuel IH]; intros fuel' finish w o w' H Ho Hle.
  - cbn in H. injection H as <- <-. congruence.
  - destruct fuel' as [|fuel']; [lia|]. cbn [keepalive_wait] in *.
    destruct (time_remains ops finish w) as [[] w1]; [|exact H].
    destruct (cl_job_keepalive ops (id self) (_timeout self) w1)
      as [[v|e| |] w2]; try exact H.
    destruct (wait_timeout_of ops self finish w2) as [[x|e| |] w3];
      try exact H.
    destruct (Qle_bool 0 x).
    + destruct (cl_wait_for_notification ops (Some x) w3) as [[v'|e| |] w4];
        try exact H.
      destruct (is_timeout e); [|exact H]. apply IH; [assumption .. | lia].
    + apply IH; [assumption .. | lia].
Qed.

Lemma poll_loop_fuel fuel :
  forall fuel' finish old_state w o w',
    poll_loop ops JobState_of self fuel finish old_state w = (o, w') ->
    o <> OutOfFuel -> fuel <= fuel' ->
    poll_loop ops JobState_of self fuel' finish old_state w = (o, w').
Proof.
  induction fuel as [|fuel IH]; intros fuel' finish old_state w o w' H Ho Hle.
  - cbn in H. injection H as <- <-. congruence.
  - destruct fuel' as [|fuel']; [lia|]. cbn [poll_loop] in *.
    destruct (time_remains ops finish w) as [[] w1]; [|exact H].
    destruct (get_state ops JobState_of self w1) as [[tup|e| |] w2];
      try exact H.
    destruct (negb (JobState_eqb (js_state tup) old_state)); [exact H|].
    destruct (keepalive_wait ops self fuel finish w2) as [[[]|e| |] w3] eqn:Hk;
      try (rewrite (keepalive_wait_fuel fuel fuel' _ _ _ _ Hk);
           [|discriminate|lia]).
    + apply IH; [assumption .. | lia].
    + exact H.
    + exact H.
    + exact H.
    + injection H as <- <-. congruence.
Qed.

Lemma listen_loop_fuel fuel :
  forall fuel' finish old_state w o w',
    listen_loop ops JobState_of py_int self fuel finish old_state w = (o, w') ->
    o <> OutOfFuel -> fuel <= fuel' ->
    listen_loop ops JobState_of py_int self fuel' finish old_state w = (o, w').
Proof.
  induction fuel as [|fuel IH]; intros fuel' finish old_state w o w' H Ho Hle.
  - cbn in H. injection H as <- <-. congruence.
  - destruct fuel' as [|fuel']; [lia|]. cbn [listen_loop] in *.
    destruct (time_remains ops finish w) as [[] w1]; [|exact H].
    cbv zeta in *.
    assert (Hhandler : forall e w3,
               (if is_oserror e || is_timeout e
                then match reconnect_after_failure ops py_int self finish w3 with
                     | (Ret _, w4) =>
                         listen_loop ops JobState_of py_int self fuel finish
                           old_state w4
                     | (o0, w4) => (reraise o0, w4)
                     end
                else (Raise e, w3)) = (o, w') ->
               (if is_oserror e || is_timeout e
                then match reconnect_after_failure ops py_int self finish w3 with
                     | (Ret _, w4) =>
                         listen_loop ops JobState_of py_int self fuel' finish
                           old_state w4
                     | (o0, w4) => (reraise o0, w4)
                     end
                else (Raise e, w3)) = (o, w')).
    { intros e w3 He. destruct (is_oserror e || is_timeout e); [|exact He].
      destruct (reconnect_after_failure ops py_int self finish w3)
        as [[[]|e'| |] w4]; try exact He.
      apply IH; [assumption .. | lia]. }
    destruct (cl_notify_job ops (id self) None w1) as [[v|e| |] w2].
    + destruct (poll_loop ops JobState_of self fuel finish old_state w2)
        as [[[s|]|e| |] w3] eqn:Hp;
        try (rewrite (poll_loop_fuel fuel fuel' _ _ _ _ _ Hp);
             [|discriminate|lia]).
      * exact H.
      * apply IH; [assumption .. | lia].
      * cbn [reraise] in *. now apply Hhandler.
      * exact H.
      * injection H as <- <-. congruence.
    + cbn [reraise] in *. now apply Hhandler.
    + exact H.
    + injection H as <- <-. congruence.
Qed.

Lemma wait_for_state_change_fuel fuel fuel' old_state timeout w o w' :
  wait_for_state_change ops JobState_of py_int self fuel old_state timeout w
  = (o, w') ->
  o <> OutOfFuel -> fuel <= fuel' ->
  wait_for_state_change ops JobState_of py_int self fuel' old_state timeout w
  = (o, w').
Proof.
  unfold wait_for_state_change.
  destruct (finish_time_of ops timeout w) as [finish w1].
  apply listen_loop_fuel.
Qed.

(** ** Runs of the polling loop *)




End Fuel.

(** ** What [wait_for_state_change] returns *)

Section WaitForStateChange.

Context {W : Type} (ops : ClientOps W).
Variable JobState_of : json -> option JobState.
Variable py_int : string -> option Z.
Variable self : Job.


End WaitForStateChange.


(** ** Waiting until the job is ready *)

Section ReadySound.

Context {W : Type} (ops : ClientOps W).
Variable JobState_of : json -> option JobState.
Variable py_int : string -> option Z.
Variable self : Job.

Lemma polled_after_wait (Inv : W -> Prop) old_state s w' :
  polled ops JobState_of self Inv old_state ->
  state_observed ops JobState_of self Inv old_state s w' ->
  polled ops JobState_of self Inv s.
Proof.
  intros Hold [->|[_ (w1 & tup & Hinv & Hg & Hs)]]; [assumption|].
  now exists w1, tup, w'.
Qed.

End ReadySound.

Section ReadyLive.

Context {W : Type} (ops : ClientOps W).
Variable JobState_of : json -> option JobState.
Variable py_int : string -> option Z.
Variable self : Job.
Variable clk : W -> Clock.
Variable Inv : W -> Prop.
Hypothesis Hhealthy : healthy ops JobState_of self clk Inv.

(** From the reading [M] on, the clock [rd] has reached the deadline [f]
    and the deadline of every inner wait that is started at a reading
    [p]. *)
Variable rd : nat -> Q.
Variable f : Q.
Variable M : nat.
Hypothesis Hreach : forall n, M <= n -> (f <= rd n)%Q.
Hypothesis Hinner :
  forall p n, M <= n -> S p <= n -> (rd (S p) + (f - rd p) <= rd n)%Q.

(** The branch that waits for a change of the state [s] and loops. *)
Lemma ready_wait_live fuel s w3 :
  (forall cur w,
      on_clock clk Inv rd w ->
      (forall s', cur = Some s' -> polled ops JobState_of self Inv s') ->
      ticks (clk w3) < ticks (clk w) ->
      exists r w',
        ready_loop ops JobState_of py_int self fuel (Some f) cur w = (r, w') /\
        ready_verdict ops JobState_of self Inv rd f r w') ->
  on_clock clk Inv rd w3 ->
  polled ops JobState_of self Inv s ->
  M - S (S (ticks (clk w3))) < fuel ->
  exists r w',
    (let '(time_left, w4) := remaining_time ops (Some f) w3 in
     match wait_for_state_change ops JobState_of py_int self fuel s
             time_left w4 with
     | (Ret s', w5) =>
         ready_loop ops JobState_of py_int self fuel (Some f) (Some s') w5
     | (o, w5) => (reraise o, w5)
     end) = (r, w') /\
    ready_verdict ops JobState_of self Inv rd f r w'.
Proof.
  intros Hloop Hw3 Hpolled Hfuel.
  destruct Hw3 as [Hinv3 Hrd3].
  destruct (h_time _ _ _ _ _ Hhealthy w3 Hinv3) as (w4 & E4 & Hinv4 & Hr4 & Ht4).
  destruct (h_time _ _ _ _ _ Hhealthy w4 Hinv4) as (w5 & E5 & Hinv5 & Hr5 & Ht5).
  assert (Hw5 : on_clock clk Inv rd w5) by (split; congruence).
  set (p := ticks (clk w3)) in *.
  set (f' := (rd (S p) + (f - rd p))%Q).
  destruct (listen_loop_live ops JobState_of py_int self s clk Inv Hhealthy
              rd f' (Nat.max M (S p))
              ltac:(intros n Hn; apply Hinner; lia)
              (Nat.max M (S p) - ticks (clk w5)) fuel w5 Hw5
              ltac:(lia) ltac:(lia))
    as (s' & w6 & El & Hw6 & T6 & Hobs).
  destruct (Hloop (Some s') w6 Hw6) as (r & w' & Er & Hv).
  { intros s0 [= <-]. now apply (polled_after_wait _ _ _ _ s s' w6). }
  { lia. }
  exists r, w'. split; [|exact Hv].
  cbn [remaining_time]. rewrite E4. unfold wait_for_state_change.
  cbn [finish_time_of]. rewrite E5.
  rewrite Hrd3, Hr4, Hrd3, Ht4. fold p. fold f'. now rewrite El.
Qed.

Lemma ready_loop_live (m : nat) :
  forall fuel cur w,
    on_clock clk Inv rd w ->
    (forall s, cur = Some s -> polled ops JobState_of self Inv s) ->
    M - ticks (clk w) <= m -> m < fuel ->
    exists r w',
      ready_loop ops JobState_of py_int self fuel (Some f) cur w = (r, w') /\
      ready_verdict ops JobState_of self Inv rd f r w'.
Proof.
  induction m as [|m IH]; intros fuel cur w Hw Hcur Hm Hfuel;
    (destruct fuel as [|fuel]; [lia|]); cbn [ready_loop];
    destruct (time_remains_healthy ops JobState_of self clk Inv Hhealthy
                rd f w Hw) as (w1 & E1 & Hw1 & T1);
    rewrite E1; destruct (Qltb (rd (ticks (clk w))) f) eqn:Hgo;
    try (exists (Raise StateChangeTimeoutError), w1; split; [reflexivity|];
         right; right; right; split; [reflexivity|];
         exists (ticks (clk w)); now apply Qltb_false_le).
  - apply (time_remains_before clk rd f M Hreach) in Hgo. lia.
  - apply (time_remains_before clk rd f M Hreach) in Hgo. cbv zeta.
    assert (Hs : exists s w2,
               match cur with
               | Some s => (Ret s, w1)
               | None =>
                   match get_state ops JobState_of self w1 with
                   | (Ret tup, w2) => (Ret (js_state tup), w2)
                   | (o, w2) => (reraise o, w2)
                   end
               end = (Ret s, w2) /\
               polled ops JobState_of self Inv s /\
               on_clock clk Inv rd w2 /\ ticks (clk w1) <= ticks (clk w2)).
    { destruct cur as [s|].
      - exists s, w1. repeat split; [now apply Hcur | apply Hw1 .. | lia].
      - destruct (h_poll _ _ _ _ _ Hhealthy w1 (proj1 Hw1))
          as (tup & w2 & E2 & Hinv2 & A2).
        destruct (on_clock_advances _ _ _ _ _ Hw1 Hinv2 A2) as [Hw2 T2].
        exists (js_state tup), w2. rewrite E2.
        repeat split; [|apply Hw2 .. | lia].
        exists w1, tup, w2. repeat split; [apply Hw1 | assumption]. }
    destruct Hs as (s & w2 & Es & Hpolled & Hw2 & T2). rewrite Es.
    assert (Hwait : forall e,
               exists r w',
                 (let '(time_left, w4) :=
                    remaining_time ops (Some f) (env_log ops e w2) in
                  match wait_for_state_change ops JobState_of py_int self
                          fuel s time_left w4 with
                  | (Ret s', w5) =>
                      ready_loop ops JobState_of py_int self fuel (Some f)
                        (Some s') w5
                  | (o, w5) => (reraise o, w5)
                  end) = (r, w') /\
                 ready_verdict ops JobState_of self Inv rd f r w').
    { intros e.
      destruct (h_log _ _ _ _ _ Hhealthy e w2 (proj1 Hw2)) as [Hinv3 A3].
      destruct (on_clock_advances _ _ _ _ _ Hw2 Hinv3 A3) as [Hw3 T3].
      apply ready_wait_live; [|assumption .. | lia].
      intros cur' w' Hw' Hcur' Ht'. apply IH; [assumption .. | lia | lia]. }
    destruct s.
    + exists (Raise (JobDestroyedError (JStr "Server no longer recognises job."))),
        w2.
      split; [reflexivity|]. right; right; left. now split.
    + apply Hwait.
    + apply Hwait.
    + exists (Ret tt), w2. split; [reflexivity|]. left. now split.
    + destruct (h_poll _ _ _ _ _ Hhealthy w2 (proj1 Hw2))
        as (tup & w3 & E3 & Hinv3 & A3).
      rewrite E3.
      exists (Raise (JobDestroyedError (js_reason tup))), w3.
      split; [reflexivity|]. right; left. split; [assumption|].
      exists w2, tup. repeat split; [apply Hw2 | assumption].
Qed.

End ReadyLive.

Lemma clock_bounds (k : Clock) (f : Q) :
  monotone k -> unbounded k ->
  exists M,
    (forall n, M <= n -> (f <= readings k n)%Q) /\
    (forall p n, M <= n -> S p <= n ->
                 (readings k (S p) + (f - readings k p) <= readings k n)%Q).
Proof.
  intros Hmono Hunb.
  destruct (Hunb f) as [N HN].
  destruct (Hunb (readings k N + (f - readings k 0))%Q) as [N' HN'].
  exists (Nat.max N N'). split.
  - intros n Hn. apply HN. lia.
  - intros p n Hn Hp. destruct (le_lt_dec N p) as [Hle|Hlt].
    + pose proof (HN p Hle). pose proof (Hmono (S p) n Hp). lra.
    + pose proof (HN' n ltac:(lia)).
      pose proof (Hmono (S p) N ltac:(lia)).
      pose proof (Hmono 0 p ltac:(lia)). lra.
Qed.

Example quiet_ready :
  fst (wait_until_ready (quiet_server 3) example_JobState_of decimal_int
         example_job 5 (Some 3%Q) example_clock) = Ret tt.
Proof. reflexivity. Qed.

Example quiet_destroyed :
  fst (wait_until_ready (quiet_server 4) example_JobState_of decimal_int
         example_job 5 None example_clock)
  = Raise (JobDestroyedError (JStr "gone")).
Proof. reflexivity. Qed.

Example quiet_unknown :
  fst (wait_until_ready (quiet_server 0) example_JobState_of decimal_int
         example_job 5 None example_clock)
  = Raise (JobDestroyedError (JStr "Server no longer recognises job.")).
Proof. reflexivity. Qed.

Example quiet_queued :
  fst (wait_until_ready (quiet_server 1) example_JobState_of decimal_int
         example_job 20 (Some 3%Q) example_clock)
  = Raise StateChangeTimeoutError.
Proof. vm_compute. reflexivity. Qed.

Example quiet_queued_unchanged :
  fst (wait_for_state_change (quiet_server 1) example_JobState_of decimal_int
         example_job 20 queued (Some 3%Q) example_clock)
  = Ret queued.
Proof. vm_compute. reflexivity. Qed.

Section ReadyTerminates.

Context {W : Type} (ops : ClientOps W).
Variable JobState_of : json -> option JobState.
Variable py_int : string -> option Z.
Variable self : Job.

(** With a server that keeps answering and a clock that runs on, the call
    with the timeout [T] ends. *)
Theorem wait_until_ready_terminates :
  forall (clk : W -> Clock) (Inv : W -> Prop) (T : Q) (w0 : W),
    healthy ops JobState_of self clk Inv ->
    Inv w0 ->
    monotone (clk w0) ->
    unbounded (clk w0) ->
    exists fuel0, forall fuel, fuel0 <= fuel ->
      exists r w',
        wait_until_ready ops JobState_of py_int self fuel (Some T) w0
        = (r, w') /\
        ready_verdict ops JobState_of self Inv (readings (clk w0))
          (readings (clk w0) (ticks (clk w0)) + T)%Q r w'.
Proof.
  intros clk Inv T w0 Hh Hinv0 Hmono Hunb.
  destruct (h_time _ _ _ _ _ Hh w0 Hinv0) as (w1 & E & Hinv1 & Hr1 & Ht1).
  set (f := (readings (clk w0) (ticks (clk w0)) + T)%Q).
  destruct (clock_bounds (clk w0) f Hmono Hunb) as (M & Hreach & Hinner).
  exists (S (M - ticks (clk w1))). intros fuel Hfuel.
  assert (Hw1 : on_clock clk Inv (readings (clk w0)) w1) by now split.
  destruct (ready_loop_live ops JobState_of py_int self clk Inv Hh
              (readings (clk w0)) f M Hreach Hinner (M - ticks (clk w1))
              fuel None w1 Hw1 ltac:(discriminate) ltac:(lia) ltac:(lia))
    as (r & w' & Er & Hv).
  exists r, w'. unfold wait_until_ready. cbn [finish_time_of].
  rewrite E. fold f. now split.
Qed.

End ReadyTerminates.

Lemma example_clock_monotone : monotone example_clock.
Proof.
  intros i j Hij. cbn [readings example_clock]. rewrite <- Zle_Qle. lia.
Qed.

Example quiet_ready_terminates :
  exists fuel0, forall fuel, fuel0 <= fuel ->
    exists r w',
      wait_until_ready (quiet_server 1) example_JobState_of decimal_int
        example_job fuel (Some 3%Q) example_clock = (r, w') /\
      ready_verdict (quiet_server 1) example_JobState_of example_job
        (fun _ => True) (readings example_clock) (0 + 3)%Q r w'.
Proof.
  refine (wait_until_ready_terminates (quiet_server 1) example_JobState_of
            decimal_int example_job (fun k => k) (fun _ => True) 3%Q
            example_clock _ I _ _).
  - apply (quiet_server_healthy 1 queued). reflexivity.
  - apply example_clock_monotone.
  - apply (example_clock_unbounded 0).
Qed.

(** ** How [wait_until_ready] ends *)

Section WaitUntilReady.

Context {W : Type} (ops : ClientOps W).
Variable JobState_of : json -> option JobState.
Variable py_int : string -> option Z.
Variable self : Job.

Lemma ready_loop_fuel fuel :
  forall fuel' finish cur w o w',
    ready_loop ops JobState_of py_int self fuel finish cur w = (o, w') ->
    o <> OutOfFuel -> fuel <= fuel' ->
    ready_loop ops JobState_of py_int self fuel' finish cur w = (o, w').
Proof.
  induction fuel as [|fuel IH]; intros fuel' finish cur w o w' H Ho Hle.
  - cbn in H. injection H as <- <-. congruence.
  - destruct fuel' as [|fuel']; [lia|]. cbn [ready_loop] in *.
    destruct (time_remains ops finish w) as [[] w1]; [|exact H].
    cbv zeta in *.
    destruct (match cur with
              | Some s => (Ret s, w1)
              | None =>
                  match get_state ops JobState_of self w1 with
                  | (Ret tup, w2) => (Ret (js_state tup), w2)
                  | (o, w2) => (reraise o, w2)
                  end
              end) as [[s|e| |] w2]; try exact H.
    assert (Hwait : forall w3,
               (let '(time_left, w4) := remaining_time ops finish w3 in
                match wait_for_state_change ops JobState_of py_int self fuel s
                        time_left w4 with
                | (Ret s', w5) =>
                    ready_loop ops JobState_of py_int self fuel finish
                      (Some s') w5
                | (o, w5) => (reraise o, w5)
                end) = (o, w') ->
               (let '(time_left, w4) := remaining_time ops finish w3 in
                match wait_for_state_change ops JobState_of py_int self fuel' s
                        time_left w4 with
                | (Ret s', w5) =>
                    ready_loop ops JobState_of py_int self fuel' finish
                      (Some s') w5
                | (o, w5) => (reraise o, w5)
                end) = (o, w')).
    { intros w3 Hw. destruct (remaining_time ops finish w3) as [time_left w4].
      destruct (wait_for_state_change ops JobState_of py_int self fuel s
                  time_left w4) as [[s'|e| |] w5] eqn:Hc;
        try (rewrite (wait_for_state_change_fuel ops JobState_of py_int self
                        fuel fuel' _ _ _ _ _ Hc); [|discriminate|lia]).
      - apply IH; [assumption .. | lia].
      - exact Hw.
      - exact Hw.
      - injection Hw as <- <-. congruence. }
    destruct s; try exact H; now apply Hwait.
Qed.

Lemma ready_loop_waits fuel finish cur w w1 s w2 msg time_left w4 k s' w5 :
  time_remains ops finish w = (true, w1) ->
  held ops JobState_of self cur w1 s w2 ->
  waiting_log s = Some msg ->
  remaining_time ops finish (env_log ops msg w2) = (time_left, w4) ->
  wait_for_state_change ops JobState_of py_int self k s time_left w4
  = (Ret s', w5) ->
  k <= fuel ->
  ready_loop ops JobState_of py_int self (S fuel) finish cur w
  = ready_loop ops JobState_of py_int self fuel finish (Some s') w5.
Proof.
  intros Hgo Hheld Hlog Hrem Hwait Hle. cbn [ready_loop]. rewrite Hgo.
  cbv zeta.
  apply (wait_for_state_change_fuel ops JobState_of py_int self k fuel)
    in Hwait; [|discriminate|exact Hle].
  destruct Hheld as [[-> ->]|[-> (tup0 & Hg & Hs)]]; [|rewrite Hg, Hs];
    destruct s; try discriminate; injection Hlog as <-;
    now rewrite Hrem, Hwait.
Qed.

Lemma waiting_turns_run finish cur w cur' w' :
  waiting_turns ops JobState_of py_int self finish cur w cur' w' ->
  exists n K, forall m, K <= m ->
    ready_loop ops JobState_of py_int self (n + m) finish cur w
    = ready_loop ops JobState_of py_int self m finish cur' w'.
Proof.
  induction 1 as [cur w|cur w w1 s w2 msg time_left w4 k s' w5 cur' w'
                    Hgo Hheld Hlog Hrem Hwait _ (n & K & IH)].
  - now exists 0, 0.
  - exists (S n), (Nat.max K k). intros m Hm.
    change (S n + m) with (S (n + m)).
    rewrite (ready_loop_waits _ _ _ _ _ _ _ _ _ _ _ _ _
               Hgo Hheld Hlog Hrem Hwait); [|lia].
    apply IH. lia.
Qed.

(** A normal return of the loop follows turns that went on waiting and a
    turn that started before the deadline holding the state ready. *)
Lemma ready_loop_returns fuel finish :
  forall cur w w',
    ready_loop ops JobState_of py_int self fuel finish cur w = (Ret tt, w') ->
    exists cur' wn w1,
      waiting_turns ops JobState_of py_int self finish cur w cur' wn /\
      time_remains ops finish wn = (true, w1) /\
      held ops JobState_of self cur' w1 ready w'.
Proof.
  induction fuel as [|fuel IH]; intros cur w w' H; [discriminate|].
  cbn [ready_loop] in H.
  destruct (time_remains ops finish w) as [[] w1] eqn:Hgo; [|discriminate].
  cbv zeta in H.
  assert (Hs : exists s w2,
             match cur with
             | Some s => (Ret s, w1)
             | None =>
                 match get_state ops JobState_of self w1 with
                 | (Ret tup, w2) => (Ret (js_state tup), w2)
                 | (o, w2) => (reraise o, w2)
                 end
             end = (Ret s, w2) /\
             held ops JobState_of self cur w1 s w2).
  { destruct cur as [s|].
    - exists s, w1. split; [reflexivity | now left].
    - destruct (get_state ops JobState_of self w1) as [[tup| | |] w2] eqn:Hg;
        try discriminate.
      exists (js_state tup), w2. split; [reflexivity|].
      right. split; [reflexivity|]. now exists tup. }
  destruct Hs as (s & w2 & Es & Hheld). rewrite Es in H.
  assert (Hwait : forall msg,
             waiting_log s = Some msg ->
             (let '(time_left, w4) :=
                remaining_time ops finish (env_log ops msg w2) in
              match wait_for_state_change ops JobState_of py_int self fuel s
                      time_left w4 with
              | (Ret s', w5) =>
                  ready_loop ops JobState_of py_int self fuel finish (Some s') w5
              | (o, w5) => (reraise o, w5)
              end) = (Ret tt, w') ->
             exists cur' wn w1,
               waiting_turns ops JobState_of py_int self finish cur w cur' wn /\
               time_remains ops finish wn = (true, w1) /\
               held ops JobState_of self cur' w1 ready w').
  { intros msg Hlog Hw.
    destruct (remaining_time ops finish (env_log ops msg w2))
      as [time_left w4] eqn:Hrem.
    destruct (wait_for_state_change ops JobState_of py_int self fuel s
                time_left w4) as [[s'| | |] w5] eqn:Hc; try discriminate.
    destruct (IH (Some s') w5 w' Hw) as (cur' & wn & wn1 & Hturns & Hgo' & Hr).
    exists cur', wn, wn1. split; [|now split].
    now apply (turns_more ops JobState_of py_int self finish cur w w1 s w2 msg
                 time_left w4 fuel s' w5 cur' wn). }
  destruct s.
  - discriminate.
  - now apply (Hwait _ eq_refl).
  - now apply (Hwait _ eq_refl).
  - injection H as <-. exists cur, w, w1. split; [constructor | now split].
  - destruct (get_state ops JobState_of self w2) as [[tup| | |] w3];
      discriminate.
Qed.

Lemma ready_loop_turn fuel finish cur w w1 s w2 :
  time_remains ops finish w = (true, w1) ->
  held ops JobState_of self cur w1 s w2 ->
  (s = ready ->
   ready_loop ops JobState_of py_int self (S fuel) finish cur w = (Ret tt, w2)) /\
  (s = unknown ->
   ready_loop ops JobState_of py_int self (S fuel) finish cur w
   = (Raise (JobDestroyedError (JStr "Server no longer recognises job.")), w2)) /\
  (s = destroyed ->
   forall tup w3,
     get_state ops JobState_of self w2 = (Ret tup, w3) ->
     ready_loop ops JobState_of py_int self (S fuel) finish cur w
     = (Raise (JobDestroyedError (js_reason tup)), w3)).
Proof.
  intros Hgo Hheld. cbn [ready_loop]. rewrite Hgo. cbv zeta.
  destruct Hheld as [[-> ->]|[-> (tup0 & Hg & Hs)]]; [|rewrite Hg, Hs];
    (repeat split; [intros -> | intros -> | intros -> tup w3 Hg3];
     try reflexivity; now rewrite Hg3).
Qed.

(** C7.  [wait_until_ready(timeout)], whose deadline is [finish_time].  It
    returns normally if and only if, after turns of its loop that went on
    waiting (the state held was queued or power, and
    [wait_for_state_change] returned the state of the next turn), a turn
    passes the deadline check while holding the state ready.  After such
    turns, a turn that passes the check raises [JobDestroyedError] with the
    reason that a further [get_state] reports when the state held is
    destroyed, and with the message that the server no longer recognises
    the job when it is unknown, so that the first such state ends the
    wait; and a turn whose check finds the deadline reached raises
    [StateChangeTimeoutError], whatever the state held. *)
Theorem wait_until_ready_outcomes :
  forall (timeout : option Q) (w : W) (finish_time : option Q) (w0 : W),
    finish_time_of ops timeout w = (finish_time, w0) ->
    (forall fuel w',
        wait_until_ready ops JobState_of py_int self fuel timeout w
        = (Ret tt, w') ->
        exists cur wn w1,
          waiting_turns ops JobState_of py_int self finish_time None w0 cur wn /\
          time_remains ops finish_time wn = (true, w1) /\
          held ops JobState_of self cur w1 ready w') /\
    (forall cur wn,
        waiting_turns ops JobState_of py_int self finish_time None w0 cur wn ->
        exists fuel0, forall fuel, fuel0 <= fuel ->
          (forall w1 w2,
              time_remains ops finish_time wn = (true, w1) ->
              held ops JobState_of self cur w1 ready w2 ->
              wait_until_ready ops JobState_of py_int self fuel timeout w
              = (Ret tt, w2)) /\
          (forall w1 w2 tup w3,
              time_remains ops finish_time wn = (true, w1) ->
              held ops JobState_of self cur w1 destroyed w2 ->
              get_state ops JobState_of self w2 = (Ret tup, w3) ->
              wait_until_ready ops JobState_of py_int self fuel timeout w
              = (Raise (JobDestroyedError (js_reason tup)), w3)) /\
          (forall w1 w2,
              time_remains ops finish_time wn = (true, w1) ->
              held ops JobState_of self cur w1 unknown w2 ->
              wait_until_ready ops JobState_of py_int self fuel timeout w
              = (Raise (JobDestroyedError
                          (JStr "Server no longer recognises job.")), w2)) /\
          (forall w1,
              time_remains ops finish_time wn = (false, w1) ->
              wait_until_ready ops JobState_of py_int self fuel timeout w
              = (Raise StateChangeTimeoutError, w1))).
Proof.
  intros timeout w finish_time w0 Hfin.
  unfold wait_until_ready. rewrite Hfin. split.
  - intros fuel w' H. now apply (ready_loop_returns fuel).
  - intros cur wn Hturns.
    destruct (waiting_turns_run _ _ _ _ _ Hturns) as (n & K & Hrun).
    exists (n + S K). intros fuel Hfuel.
    replace fuel with (n + S (fuel - S n)) by lia.
    rewrite Hrun by lia. repeat split.
    + intros w1 w2 Hgo Hheld.
      now apply (ready_loop_turn _ _ _ _ _ _ _ Hgo Hheld).
    + intros w1 w2 tup w3 Hgo Hheld Hg.
      now apply (ready_loop_turn _ _ _ _ _ _ _ Hgo Hheld).
    + intros w1 w2 Hgo Hheld.
      now apply (ready_loop_turn _ _ _ _ _ _ _ Hgo Hheld).
    + intros w1 Hgo. cbn [ready_loop]. now rewrite Hgo.
Qed.

Lemma wait_until_ready_fuel fuel fuel' timeout w o w' :
  wait_until_ready ops JobState_of py_int self fuel timeout w = (o, w') ->
  o <> OutOfFuel -> fuel <= fuel' ->
  wait_until_ready ops JobState_of py_int self fuel' timeout w = (o, w').
Proof.
  unfold wait_until_ready.
  destruct (finish_time_of ops timeout w) as [finish w1].
  apply ready_loop_fuel.
Qed.

End WaitUntilReady.

Lemma wait_until_ready_outcomes_witness :
  exists fuel0, forall fuel, fuel0 <= fuel ->
    fst (wait_until_ready example_ops example_JobState_of decimal_int
           example_job fuel None (example_world ready_script))
    = Ret tt.
Proof.
  pose (w := example_world ready_script).
  pose (w2 := snd (get_state example_ops example_JobState_of example_job w)).
  pose (w4 := env_log example_ops
                (LogInfo "Job has been queued by the server.") w2).
  pose (w5 := snd (wait_for_state_change example_ops example_JobState_of
                     decimal_int example_job 4 queued None w4)).
  assert (Hturns : waiting_turns example_ops example_JobState_of decimal_int
                     example_job None None w (Some ready) w5).
  { apply (turns_more example_ops example_JobState_of decimal_int example_job
             None None w w queued w2
             (LogInfo "Job has been queued by the server.") None w4 4 ready w5
             (Some ready) w5).
    - reflexivity.
    - right. split; [reflexivity|].
      exists (mkJobStateTuple queued JNull (JFloat 60) JNull).
      split; [vm_compute|]; reflexivity.
    - reflexivity.
    - reflexivity.
    - vm_compute. reflexivity.
    - constructor. }
  destruct (proj2 (wait_until_ready_outcomes example_ops example_JobState_of
                     decimal_int example_job None w None w eq_refl)
              (Some ready) w5 Hturns) as [fuel0 H].
  exists fuel0. intros fuel Hfuel.
  exact (f_equal fst
           (proj1 (H fuel Hfuel) w5 w5 eq_refl (or_introl (conj eq_refl eq_refl)))).
Defined.

(** The deadline is 6 and the clock reads 0, 1, 2, ...  The first poll
    reports the job queued; the inner wait subscribes, and its poll, made
    when the clock has read 5 at most, reports the job ready.  The next
    turn of the loop reads 6 and raises [StateChangeTimeoutError]: a state
    polled as ready within the deadline does not make the call return. *)
Lemma wait_until_ready_outcomes_counterexample :
  let w := example_world late_ready_script in
  let w0 := snd (finish_time_of example_ops (Some 6%Q) w) in
  exists wp tup w5,
    get_state example_ops example_JobState_of patient_job wp = (Ret tup, w5) /\
    js_state tup = ready /\
    ticks (clock (client w5)) = 6 /\
    (forall i, i < 6 -> Qltb (readings (clock (client w5)) i) 6 = true) /\
    waiting_turns example_ops example_JobState_of decimal_int patient_job
      (Some 6%Q) None w0 (Some ready) w5 /\
    forall fuel, 3 <= fuel ->
      wait_until_ready example_ops example_JobState_of decimal_int patient_job
        fuel (Some 6%Q) w
      = (Raise StateChangeTimeoutError,
         snd (time_remains example_ops (Some 6%Q) w5)).
Proof.
  intros w w0.
  pose (w1 := snd (time_remains example_ops (Some 6%Q) w0)).
  pose (w2 := snd (get_state example_ops example_JobState_of patient_job w1)).
  pose (w3 := env_log example_ops
                (LogInfo "Job has been queued by the server.") w2).
  pose (w4 := snd (remaining_time example_ops (Some 6%Q) w3)).
  pose (f0 := snd (finish_time_of example_ops (Some 4%Q) w4)).
  pose (f1 := snd (time_remains example_ops (Some 7%Q) f0)).
  pose (f2 := snd (cl_notify_job example_ops (JInt 12) None f1)).
  pose (wp := snd (time_remains example_ops (Some 7%Q) f2)).
  pose (w5 := snd (get_state example_ops example_JobState_of patient_job wp)).
  exists wp, (mkJobStateTuple ready JNull (JFloat 60) JNull), w5.
  split; [vm_compute; reflexivity|].
  split; [reflexivity|].
  split; [vm_compute; reflexivity|].
  split.
  { intros i Hi. do 6 (destruct i as [|i]; [vm_compute; reflexivity|]). lia. }
  split.
  { apply (turns_more example_ops example_JobState_of decimal_int patient_job
             (Some 6%Q) None w0 w1 queued w2
             (LogInfo "Job has been queued by the server.") (Some 4%Q) w4 2
             ready w5 (Some ready) w5).
    - vm_compute. reflexivity.
    - right. split; [reflexivity|].
      exists (mkJobStateTuple queued JNull (JFloat 60) JNull).
      split; [vm_compute|]; reflexivity.
    - reflexivity.
    - vm_compute. reflexivity.
    - vm_compute. reflexivity.
    - constructor. }
  intros fuel Hfuel.
  apply (wait_until_ready_fuel example_ops example_JobState_of decimal_int
           patient_job 3 fuel); [vm_compute; reflexivity | discriminate | exact Hfuel].
Qed.

(** ** The job on the [ProtocolClient] of this repository *)

(** When the connection breaks during [wait_for_state_change], the handler
    closes the client and calls [_reconnect]; in this version [close()] has
    reset the thread-local object, so that [connect()] raises
    [AttributeError], which neither [_reconnect] nor the loop handles. *)
Example reconnect_after_close_raises :
  fst (wait_for_state_change example_ops example_JobState_of decimal_int
         example_job 5 queued (Some 10%Q) broken_world)
  = Raise AttributeError.
Proof. vm_compute. reflexivity. Qed.

(** Without a deadline and without a keepalive interval the timeout of the
    inner wait cannot be computed. *)
Example no_deadline_no_keepalive :
  fst (wait_for_state_change (quiet_server 1) example_JobState_of decimal_int
         (mkJob (JInt 12) None None 1%Q) 5 queued None example_clock)
  = Raise TypeError.
Proof. reflexivity. Qed.

(** A first use of the client connects lazily and succeeds. *)
Example lazy_connect :
  fst (call example_loads example_dumps 3 0 "version" [] [] None
         (mkClient (mkConn ∅ ∅ false 0 ∅ [ConnOk] [Sent 3]
                      [Data (unlines [bytes_of "R1.0.0"])]) [] example_clock))
  = Ret (JStr "1.0.0").
Proof. reflexivity. Qed.

(** The life of a job from its first poll to ready: the server reports it
    queued, acknowledges the subscription, reports it queued again,
    acknowledges the keepalive, pushes a notification and then reports it
    ready. *)
Example queued_then_ready :
  let script := map (fun l => Data (unlines [bytes_of l]))
                    ["S1"; "R"; "S1"; "R"; "N12"; "S3"]%string in
  let r := wait_until_ready example_ops example_JobState_of decimal_int
             example_job 4 None (example_world script) in
  fst r = Ret tt /\
  recvs (conn (client (snd r))) = [] /\
  logged (snd r) = [LogInfo "Job has been queued by the server."].
Proof. vm_compute. repeat split. Qed.

(** A request whose deadline has passed when [call] first checks it
    returns [None]; [get_state] then fails on [state["state"]] with
    [TypeError], which [wait_for_state_change] does not handle. *)
Example late_answer_raises :
  fst (wait_for_state_change example_ops example_JobState_of decimal_int
         (mkJob (JInt 12) (Some 60%Q) (Some 0%Q) 1%Q) 3 queued None
         (example_world change_script))
  = Raise TypeError.
Proof. vm_compute. reflexivity. Qed.
